(** * smartobjects-js: observable data contexts and commands

    A shallow embedding of [src/datacontext.js], [src/command.js] and the
    attach/detach part of [controller.jsx], with the properties of the
    specification stated over it.

    Modelling choices, all visible in the definitions below:
    - a JavaScript value is a [JsValue]; a number is an integer or NaN (the
      one value that is not equal to itself); an object is a reference
      compared by identity;
    - a data context is a tree: the child contexts of its component
      properties are owned by it (no sharing between parents);
    - a custom getter reads, and a custom setter reads and writes, the
      instance's own fields (its private variables and its error collector);
    - the private variable of a generated accessor is a member in a name
      space of its own, except that the one of a property named [validating]
      is the validating flag; the statements that assign properties say
      where they need the private variables to be private;
    - the event emitter and the error collector, which are not among the
      sources, are modelled from the specification;
    - a listener is an opaque identity; calling it is recorded in a trace of
      [Call]s and has no other effect;
    - [fuel] bounds the depth of nested re-fires of dependent properties; when
      it is exhausted the model throws the engine's RangeError. *)

From Stdlib Require Import List String ZArith Bool Arith Lia.
Import ListNotations.
Open Scope string_scope.
Set Warnings "-register-all".

(** ** JavaScript values *)

Inductive JsValue : Type :=
| VUndefined
| VNull
| VBool (b : bool)
| VNum (n : Z)
| VNaN                    (* the number that is not [===] to itself *)
| VStr (s : string)
| VObj (ref : nat)        (* an object, compared by identity *)
| VDeferred (ref : nat).  (* an object exposing an [always] method (a jQuery promise) *)

Definition JsValue_eq_dec (x y : JsValue) : {x = y} + {x <> y}.
Proof.
  decide equality;
    first [ apply Bool.bool_dec | apply Z.eq_dec | apply string_dec
          | apply Nat.eq_dec ].
Defined.

(** [x === y]: identity of values, except that NaN differs from every value,
    itself included. *)
Definition strict_eq (x y : JsValue) : bool :=
  match x with
  | VNaN => false
  | _ => if JsValue_eq_dec x y then true else false
  end.

(** ToBoolean *)
Definition truthy (v : JsValue) : bool :=
  match v with
  | VUndefined | VNull | VNaN => false
  | VBool b => b
  | VNum n => negb (Z.eqb n 0)
  | VStr s => negb (String.eqb s "")
  | VObj _ | VDeferred _ => true
  end.

(** [_.isUndefined] *)
Definition isUndefined (v : JsValue) : bool :=
  match v with VUndefined => true | _ => false end.

(** [v == null] *)
Definition isNullish (v : JsValue) : bool :=
  match v with VUndefined | VNull => true | _ => false end.

(** [a || b] *)
Definition js_or (a b : JsValue) : JsValue := if truthy a then a else b.

(** ** Objects used as maps: association lists in insertion order *)

Section Assoc.
Context {A : Type}.

Fixpoint lookup (k : string) (l : list (string * A)) : option A :=
  match l with
  | [] => None
  | (k', a) :: r => if String.eqb k' k then Some a else lookup k r
  end.

(** [obj[k] = a]: an existing key keeps its place, a new key goes last. *)
Fixpoint assign (k : string) (a : A) (l : list (string * A)) : list (string * A) :=
  match l with
  | [] => [(k, a)]
  | (k', a') :: r =>
      if String.eqb k' k then (k', a) :: r else (k', a') :: assign k a r
  end.

(** [delete obj[k]] *)
Fixpoint remove_key (k : string) (l : list (string * A)) : list (string * A) :=
  match l with
  | [] => []
  | (k', a') :: r =>
      if String.eqb k' k then remove_key k r else (k', a') :: remove_key k r
  end.
End Assoc.

(** ** Exceptions and results *)

Inductive Exn : Type :=
| TypeError (msg : string)
| RangeError (msg : string)
| Error (msg : string)
| Thrown (v : JsValue).

Inductive Outcome (A : Type) : Type :=
| Return (a : A)
| Throw (e : Exn).
Arguments Return {A} a.
Arguments Throw {A} e.

(** ** Error collector *)

Module Errors.
(** Modelled from the spec: errors.js is not among the sources. The Error
    Collector "maps key -> ordered sequence of error records"; absence of a
    key means no errors for that key. *)
Definition t : Type := list (string * list string).

(** Modelled from the spec: a fresh collector ([new Errors()]). *)
Definition empty : t := [].

(** Modelled from the spec: [errors(key)], the error list "for [key], or for
    all keys when [key] omitted". *)
Definition errors (e : t) (key : option string) : list string :=
  match key with
  | Some k =>
      flat_map (fun kv => if String.eqb (fst kv) k then snd kv else []) e
  | None => flat_map snd e
  end.

(** Modelled from the spec: [isValid(key)], "collector has no errors for key
    (or, for whole-entity check, no errors for any key)". *)
Definition isValid (e : t) (key : option string) : bool :=
  match errors e key with [] => true | _ :: _ => false end.

(** Modelled from the spec: [clear(key)], "clears Error Collector entries
    for [key] (or all)". *)
Definition clear (e : t) (key : option string) : t :=
  match key with
  | Some k => filter (fun kv => negb (String.eqb (fst kv) k)) e
  | None => []
  end.

(** Modelled from the spec: what a failed predicate of the checker of
    [check(key, value)] does, it "appends to the Error Collector". *)
Definition add (key : string) (msg : string) (e : t) : t :=
  (e ++ [(key, [msg])])%list.
End Errors.

(** ** Event emitter *)

Definition Listener : Type := nat.

Module EventEmitter.
(** Modelled from the spec: the emitter is the package micro-events, which
    is not among the sources. Per event type, the listeners subscribed to the
    "change events" of that name, in subscription order. *)
Definition t : Type := list (string * list Listener).

(** Modelled from the spec: the "subscribers of [name]". *)
Definition listeners (e : t) (type : string) : list Listener :=
  match lookup type e with Some ls => ls | None => [] end.

(** Modelled from the spec: whether [l] is among the subscribers, the
    state "already attached". *)
Definition subscribed (l : Listener) (ls : list Listener) : bool :=
  existsb (Nat.eqb l) ls.

(** Modelled from the spec: [on(type, listener)] "subscribes [listener]";
    subscribing a listener that is subscribed already "is ignored, original
    subscription stays active". The package also puts a limit on the
    listeners of one event and fails beyond it; the limit is not modelled, so
    the statements about [attach] are about calls that return. *)
Definition on (type : string) (l : Listener) (e : t) : t :=
  if subscribed l (listeners e type) then e
  else assign type (listeners e type ++ [l])%list e.

(** Modelled from the spec: the listeners of an event after [l] subscribed
    to it. *)
Definition added (l : Listener) (ls : list Listener) : list Listener :=
  if subscribed l ls then ls else (ls ++ [l])%list.

(** Modelled from the spec: the subscribers without the subscription of
    [l]. *)
Fixpoint remove_first (l : Listener) (ls : list Listener) : list Listener :=
  match ls with
  | [] => []
  | x :: r => if Nat.eqb x l then r else x :: remove_first l r
  end.

(** Modelled from the spec: [off(type, listener)] "unsubscribes" the
    listener: its subscription is taken away. *)
Definition off (type : string) (l : Listener) (e : t) : t :=
  assign type (remove_first l (listeners e type)) e.
End EventEmitter.

(** One call [listener(newValue, propertyName, oldValue)]. *)
Record Call : Type := MkCall {
  target : Listener;
  newValue : JsValue;
  propertyName : string;
  oldValue : JsValue
}.

(** ** Property descriptors *)

(** What custom accessors see of [this]. *)
Record Fields : Type := MkFields {
  ivars : list (string * JsValue);
  _errors : Errors.t
}.

(** A property descriptor as [_defProperty] stores it. A supplier default is
    given by the value it yields. The projection ([describe]) and the
    construction hook ([init]) are not part of the model. *)
Record Property : Type := MkProperty {
  default : JsValue;
  get : option (Fields -> JsValue);
  set : option (JsValue -> Fields -> Fields * Outcome unit);
  dependent : option (list string);
  component : option string;   (* the nested type, when a component *)
  command : bool               (* carries a command configuration *)
}.

(** [property.writable], as [_defProperty] sets it. *)
Definition writable (p : Property) : bool :=
  match get p, set p with
  | Some _, Some _ => true
  | Some _, None => false
  | None, _ => true
  end.

(** [MyObject.property(name, {default: d, dependent: deps})] *)
Definition plainProperty (d : JsValue) (deps : option (list string)) : Property :=
  MkProperty d None None deps None false.

(** [DataContext.command(name, config)]: a getter-only descriptor whose
    getter returns the command object held in the private variable. The
    source's getter makes the command on the first read, stores it and
    subscribes to its execute event; that first read is not modelled, the
    getter here only reads. *)
Definition commandProperty (name : string) (deps : option (list string)) : Property :=
  MkProperty VUndefined
    (Some (fun f => match lookup ("_" ++ name) (ivars f) with
                    | Some v => v
                    | None => VUndefined
                    end))
    None deps None true.

(** [DataContext.component(name, {component: type})] *)
Definition componentProperty (type : string) : Property :=
  MkProperty VUndefined None None None (Some type) false.

(** ** Data context instances *)

Inductive DataContext : Type := MkDataContext {
  oid : nat;                                  (* object identity *)
  fields : Fields;                            (* [_errors] and the private variables *)
  _validating : bool;
  components : list (string * DataContext);   (* private variables holding an owned child context *)
  _listeners : EventEmitter.t;
  properties : list (string * Property)       (* [this.properties()], in iteration order, keys distinct *)
}.

Definition with_fields (f : Fields) (c : DataContext) : DataContext :=
  MkDataContext (oid c) f (_validating c) (components c) (_listeners c) (properties c).

Definition with_validating (b : bool) (c : DataContext) : DataContext :=
  MkDataContext (oid c) (fields c) b (components c) (_listeners c) (properties c).

Definition with_components (cs : list (string * DataContext)) (c : DataContext) : DataContext :=
  MkDataContext (oid c) (fields c) (_validating c) cs (_listeners c) (properties c).

Definition with_listeners (e : EventEmitter.t) (c : DataContext) : DataContext :=
  MkDataContext (oid c) (fields c) (_validating c) (components c) e (properties c).

Definition with_errors (e : Errors.t) (c : DataContext) : DataContext :=
  with_fields (MkFields (ivars (fields c)) e) c.

(** [this.property(name)] *)
Definition property (c : DataContext) (name : string) : option Property :=
  lookup name (properties c).

(** [this[k]] for the private variable [k] of a generated accessor. The
    variable is a member of the object like any other. The private variable
    of a property named [validating] is the validating flag itself; the flag
    is kept as the boolean that the code tests. The other private variables
    are in a name space of their own, which is what the object does as long
    as [k] names no other member of it (see [private_slots]). *)
Definition ivar (c : DataContext) (k : string) : JsValue :=
  if String.eqb k "_validating" then VBool (_validating c)
  else
    match lookup k (components c) with
    | Some child => VObj (oid child)
    | None =>
        match lookup k (ivars (fields c)) with
        | Some v => v
        | None => VUndefined
        end
    end.

(** [this[k] = v] for a private variable [k] and a value that is not a
    data context. Written to the validating flag, the value counts by its
    truthiness. *)
Definition set_ivar (k : string) (v : JsValue) (c : DataContext) : DataContext :=
  if String.eqb k "_validating" then with_validating (truthy v) c
  else
    with_components (remove_key k (components c))
      (with_fields (MkFields (assign k v (ivars (fields c))) (_errors (fields c))) c).

(** [this[name]]: the generated getters of [makeRWProperty],
    [makeReadonlyProperty] and [makeDefaultRWProperty]. *)
Definition getProp (c : DataContext) (name : string) : JsValue :=
  match property c name with
  | Some p =>
      let value :=
        match get p with
        | Some g => g (fields c)
        | None => ivar c ("_" ++ name)
        end in
      if isUndefined value then default p else value
  | None => ivar c name
  end.

(** [this.emit(type, newValue, name, oldValue)]: the calls it makes. *)
Definition emit (c : DataContext) (type : string) (nv : JsValue) (name : string)
    (ov : JsValue) : list Call :=
  map (fun l => MkCall l nv name ov) (EventEmitter.listeners (_listeners c) type).

(** ** Running a method: result, receiver afterwards, listener calls made *)

Record Result (A : Type) : Type := MkResult {
  outcome : Outcome A;
  this : DataContext;
  calls : list Call
}.
Arguments MkResult {A} _ _ _.
Arguments outcome {A} _.
Arguments this {A} _.
Arguments calls {A} _.

Definition M (A : Type) : Type := DataContext -> Result A.

Definition ret {A} (a : A) : M A := fun c => MkResult (Return a) c [].

Definition throw {A} (e : Exn) : M A := fun c => MkResult (Throw e) c [].

Definition bind {A B} (m : M A) (f : A -> M B) : M B := fun c =>
  let r := m c in
  match outcome r with
  | Return a =>
      let r' := f a (this r) in
      MkResult (outcome r') (this r') (calls r ++ calls r')%list
  | Throw e => MkResult (Throw e) (this r) (calls r)
  end.

Notation "x <- m ;; k" := (bind m (fun x => k))
  (at level 61, m at next level, right associativity).
Notation "m ;; k" := (bind m (fun _ => k))
  (at level 61, right associativity).

(** [_.each(collection, callback)] with a callback that returns nothing. *)
Fixpoint each {A} (f : A -> M unit) (l : list A) : M unit :=
  match l with
  | [] => ret tt
  | x :: r => f x ;; each f r
  end.

(** [_.every(collection, predicate)]: stops at the first falsy answer. *)
Fixpoint everyM {A} (f : A -> M bool) (l : list A) : M bool :=
  match l with
  | [] => ret true
  | x :: r => b <- f x ;; if b then everyM f r else ret false
  end.

(** [_.every] with a predicate that only reads. *)
Fixpoint every {A} (f : A -> Outcome bool) (l : list A) : Outcome bool :=
  match l with
  | [] => Return true
  | x :: r =>
      match f x with
      | Return true => every f r
      | Return false => Return false
      | Throw e => Throw e
      end
  end.

(** ** Change notification *)

Definition stack_overflow : Exn := RangeError "Maximum call stack size exceeded".

(** The module-level helper [firePropertyChange(model, name, newValue,
    oldValue)], over the method [fire] of the model. *)
Definition fireIfChanged (fire : string -> JsValue -> JsValue -> M unit)
    (name : string) (newValue oldValue : JsValue) : M unit :=
  if negb (strict_eq oldValue newValue) then fire name newValue oldValue
  else ret tt.

(** [this.emit(type, ...)] as a step of a method. *)
Definition emitM (type : string) (nv : JsValue) (name : string) (ov : JsValue)
    : M unit := fun c => MkResult (Return tt) c (emit c type nv name ov).

(** [DataContext.prototype.firePropertyChange(name, newValue, oldValue)].
    The dependents are re-fired by [firePropertyChange(this, p, this[p])]:
    the helper is called with three arguments, its [oldValue] is undefined. *)
Fixpoint firePropertyChange (fuel : nat) (name : string) (newValue oldValue : JsValue)
    : M unit := fun c =>
  if negb (_validating c) then
    match fuel with
    | 0 => throw stack_overflow c
    | S fuel' =>
        (emitM name newValue name oldValue ;;
         match property c name with
         | Some descriptor =>
             match dependent descriptor with
             | Some deps =>
                 each (fun p self =>
                         match property self p with
                         | Some _ =>
                             fireIfChanged (firePropertyChange fuel') p
                               (getProp self p) VUndefined self
                         | None => ret tt self
                         end) deps
             | None => ret tt
             end
         | None => ret tt
         end) c
    end
  else ret tt c.

(** ** Assignment to a property: the generated setters *)

(** [this[name] = newValue] *)
Definition setProp (fuel : nat) (name : string) (newValue : JsValue) : M unit := fun c =>
  match property c name with
  | Some descriptor =>
      match get descriptor, set descriptor with
      | Some getter, Some setter =>
          (* makeRWProperty *)
          let oldValue := getter (fields c) in
          let (fields', done) := setter newValue (fields c) in
          match done with
          | Return _ =>
              fireIfChanged (firePropertyChange fuel) name newValue oldValue
                (with_fields fields' c)
          | Throw e => throw e (with_fields fields' c)
          end
      | Some _, None =>
          (* makeReadonlyProperty has no setter; the module is in strict mode *)
          throw (TypeError "Cannot set property which has only a getter") c
      | None, _ =>
          (* makeDefaultRWProperty *)
          let ivar_name := "_" ++ name in
          let oldValue := ivar c ivar_name in
          fireIfChanged (firePropertyChange fuel) name newValue oldValue
            (set_ivar ivar_name newValue c)
      end
  | None => ret tt (set_ivar name newValue c)
  end.

(** [newData[name]] *)
Definition data_get (newData : list (string * JsValue)) (name : string) : JsValue :=
  match lookup name newData with Some v => v | None => VUndefined end.

(** [reset(newData)] *)
Definition reset (fuel : nat) (newData : option (list (string * JsValue))) : M unit :=
  fun c =>
  let newData := match newData with Some d => d | None => [] end in
  each (fun np =>
          let (name, descriptor) := (np : string * Property) in
          if writable descriptor then
            setProp fuel name (js_or (data_get newData name) (default descriptor))
          else ret tt)
       (properties c) c.

(** [putAll(newData)] *)
Definition putAll (fuel : nat) (newData : option (list (string * JsValue))) : M unit :=
  fun c =>
  match newData with
  | None => ret tt c
  | Some newData =>
      each (fun np =>
              let (name, descriptor) := (np : string * Property) in
              match writable descriptor, lookup name newData with
              | true, Some v => setProp fuel name v
              | _, _ => ret tt
              end)
           (properties c) c
  end.

(** ** Validity and errors *)

(** What [this[name].method] finds, for a method of data contexts. *)
Inductive Receiver (A : Type) : Type :=
| RNullish            (* undefined or null: reading a member throws *)
| RContext (a : A)    (* a data context *)
| ROther.             (* any other value: [_.isFunction] answers false *)
Arguments RNullish {A}.
Arguments RContext {A} a.
Arguments ROther {A}.

Definition classify {A} (v : JsValue) : Receiver A :=
  if isNullish v then RNullish else ROther.

(** The receiver [this[name]] of a declared property, with the owned
    contexts given by [kids] (the components themselves, or what a method
    yields on each of them). A data context is found in the private variable
    of a component only: a [JsValue], as a custom getter returns it or as
    data assigns it, is never one. *)
Definition receiver_in {A} (kids : list (string * A)) (c : DataContext)
    (name : string) (descriptor : Property) : Receiver A :=
  match get descriptor with
  | Some _ => classify (getProp c name)
  | None =>
      match lookup ("_" ++ name) kids with
      | Some a => RContext a
      | None => classify (getProp c name)
      end
  end.

Definition receiver (c : DataContext) (name : string) (descriptor : Property)
    : Receiver DataContext :=
  receiver_in (components c) c name descriptor.

(** The TypeError of reading [member] of [undefined] or [null]; the text of
    the message is the engine's and names one or the other, here it names
    the member only. *)
Definition cannot_read (member : string) : Exn :=
  TypeError ("Cannot read property '" ++ member ++ "'").

Definition is_null {A} (key : option A) : bool :=
  match key with None => true | Some _ => false end.

(** [errors(key)] *)
Definition errors (c : DataContext) (key : option string) : list string :=
  Errors.errors (_errors (fields c)) key.

(** [isValid(key)] *)
Fixpoint isValid (c : DataContext) (key : option string) {struct c} : Outcome bool :=
  let valid := Errors.isValid (_errors (fields c)) key in
  if valid && is_null key then
    every (fun np =>
             let (name, descriptor) := (np : string * Property) in
             match component descriptor with
             | Some _ =>
                 match receiver_in
                         (map (fun kc => (fst kc, isValid (snd kc) None)) (components c))
                         c name descriptor with
                 | RNullish => Throw (cannot_read "isValid")
                 | RContext childValid => childValid
                 | ROther => Return true
                 end
             | None => Return true
             end)
          (properties c)
  else Return valid.

(** [hasErrors(key)] *)
Definition hasErrors (c : DataContext) (key : option string) : Outcome bool :=
  match isValid c key with
  | Return valid => Return (negb valid)
  | Throw e => Throw e
  end.

(** [this[name] = child], for a context that is already owned. *)
Definition put_component (k : string) (child : DataContext) (c : DataContext)
    : DataContext :=
  with_components (assign k child (components c)) c.

(** Calling a method on the owned context in [k]: the child is updated in
    place, the calls it made and its outcome are the method's. *)
Definition on_component {A} (k : string) (r : Result A) : M A := fun c =>
  MkResult (outcome r) (put_component k (this r) c) (calls r).

(** [clearErrors(key)]. The callback of [_.every] returns what the child's
    [clearErrors()] returns, which is undefined. *)
Fixpoint clearErrors (c : DataContext) (key : option string) {struct c} : Result unit :=
  let cleared := with_errors (Errors.clear (_errors (fields c)) key) c in
  if is_null key then
    (everyM (fun np self =>
               let (name, descriptor) := (np : string * Property) in
               match component descriptor with
               | Some _ =>
                   match receiver_in
                           (map (fun kc => (fst kc, clearErrors (snd kc) None))
                                (components c))
                           self name descriptor with
                   | RNullish => throw (cannot_read "clearErrors") self
                   | RContext childCleared =>
                       (on_component ("_" ++ name) childCleared ;;
                        ret (truthy VUndefined)) self
                   | ROther => ret true self
                   end
               | None => ret true self
               end)
            (properties cleared) ;;
     ret tt) cleared
  else ret tt cleared.

(** ** Validation pass *)

(** A call that only reads the receiver. *)
Definition call {A} (f : DataContext -> Outcome A) : M A := fun c =>
  MkResult (f c) c [].

(** The callback of the [_.each] in [validate()], for one property; the
    answer says whether [name] is pushed on [changedProps]. *)
Definition validate_property (validateChild : DataContext -> Result bool)
    (fuel : nat) (name : string) : M bool := fun c =>
  match property c name with
  | Some descriptor =>
      match (match component descriptor with
             | Some _ => receiver c name descriptor
             | None => ROther
             end) with
      | RNullish => throw (cannot_read "validate") c
      | RContext child =>
          (validComponent <- call (fun _ => isValid child None) ;;
           validProp <- call (fun self => isValid self (Some name)) ;;
           validated <- on_component ("_" ++ name) (validateChild child) ;;
           validProp' <- call (fun self => isValid self (Some name)) ;;
           ret (negb (Bool.eqb validComponent validated)
                || negb (Bool.eqb validProp validProp'))) c
      | ROther =>
          if writable descriptor then
            (* trigger validation by invoking setter *)
            (valid <- call (fun self => isValid self (Some name)) ;;
             setProp fuel name (getProp c name) ;;
             valid' <- call (fun self => isValid self (Some name)) ;;
             ret (negb (Bool.eqb valid valid'))) c
          else ret false c
      end
  | None => ret false c
  end.

(** The [_.each] of the try block: [changedProps] survives an exception. *)
Fixpoint validate_pass (step : string -> M bool) (props : list (string * Property))
    (changedProps : list string) (c : DataContext) : list string * Result unit :=
  match props with
  | [] => (changedProps, ret tt c)
  | (name, _) :: rest =>
      let r := step name c in
      match outcome r with
      | Return changed =>
          let (changedProps', r') :=
            validate_pass step rest
              (if changed then changedProps ++ [name] else changedProps)%list
              (this r) in
          (changedProps', MkResult (outcome r') (this r') (calls r ++ calls r')%list)
      | Throw e => (changedProps, MkResult (Throw e) (this r) (calls r))
      end
  end.

(** [validate()]. [fuel] also bounds the nesting of [validate()] calls on
    components. *)
Fixpoint validate (fuel : nat) (c : DataContext) {struct fuel} : Result bool :=
  let validateChild :=
    match fuel with
    | 0 => throw stack_overflow
    | S fuel' => validate fuel'
    end in
  (* try *)
  let (changedProps, tried) :=
    validate_pass (validate_property validateChild fuel) (properties c) []
      (with_validating true c) in
  (* finally *)
  let fired :=
    each (fun name self =>
            let val := getProp self name in
            firePropertyChange fuel name val val self)
         changedProps (with_validating false (this tried)) in
  let seen := (calls tried ++ calls fired)%list in
  match outcome fired, outcome tried with
  | Throw e, _ => MkResult (Throw e) (this fired) seen
  | Return _, Throw e => MkResult (Throw e) (this fired) seen
  | Return _, Return _ => MkResult (isValid (this fired) None) (this fired) seen
  end.

(** [get validating()] *)
Definition validating (c : DataContext) : bool := _validating c.

(** ** Subscription *)

(** [this.on(name, listener)] and [this.off(name, listener)] *)
Definition onM (name : string) (l : Listener) : M unit := fun c =>
  ret tt (with_listeners (EventEmitter.on name l (_listeners c)) c).

Definition offM (name : string) (l : Listener) : M unit := fun c =>
  ret tt (with_listeners (EventEmitter.off name l (_listeners c)) c).

(** [attach(update)] *)
Definition attach (update : Listener) : M Listener := fun c =>
  (each (fun np => onM (fst (np : string * Property)) update) (properties c) ;;
   ret update) c.

(** [detach(listener)] *)
Definition detach (listener : Listener) : M unit := fun c =>
  each (fun np => offM (fst (np : string * Property)) listener) (properties c) c.

(** ** The controller's subscription to its view model *)

Module Controller.
Definition already_attached : string := "Attaching already attached controller".

(** [this.viewModel], [this.modelListener] and what went to
    [console.warn]. The projected React state, which [update()] fills from
    reads of the view model, is not part of the model. *)
Record t : Type := Mk {
  viewModel : DataContext;
  modelListener : option Listener;
  warnings : list string
}.

(** [_attachViewModel(props)]; [closure] is the identity of the arrow
    function that the call creates as its listener. *)
Definition _attachViewModel (closure : Listener) (k : t) : Outcome unit * t :=
  match modelListener k with
  | None =>
      let cleared := clearErrors (viewModel k) None in
      match outcome cleared with
      | Return _ =>
          let attached := attach closure (this cleared) in
          match outcome attached with
          | Return listener =>
              (Return tt, Mk (this attached) (Some listener) (warnings k))
          | Throw e => (Throw e, Mk (this attached) None (warnings k))
          end
      | Throw e => (Throw e, Mk (this cleared) None (warnings k))
      end
  | Some _ =>
      (Return tt,
       Mk (viewModel k) (modelListener k)
          (warnings k ++ [already_attached])%list)
  end.

(** [_detachViewModel()] *)
Definition _detachViewModel (k : t) : t :=
  match modelListener k with
  | Some listener =>
      Mk (this (detach listener (viewModel k))) None (warnings k)
  | None => k
  end.
(** [componentWillReceiveProps(props)]. [changed] says whether
    [this.props.viewModel !== props.viewModel]; [created] is the view model
    that [_createViewModel] builds; [closure] is the listener the attach
    creates. *)
Definition componentWillReceiveProps (changed : bool) (created : DataContext)
    (closure : Listener) (k : t) : Outcome unit * t :=
  if changed then
    let detached := _detachViewModel k in
    _attachViewModel closure
      (Mk created (modelListener detached) (warnings detached))
  else (Return tt, k).
End Controller.

(** ** Commands *)

Module Command.
Section WithWorld.
(** Whatever the condition and the action of a command can read and
    change: the context object and anything it reaches. *)
Variable World : Type.

(** A function of the configuration, called as [f.apply(this, arguments)]. *)
Definition JsFunction : Type :=
  JsValue -> list JsValue -> World -> Outcome JsValue * World.

(** The result handle a caller gets. *)
Inductive Promise : Type :=
| Adopted (result : JsValue)       (* the promise the action returned *)
| Resolved (value : JsValue)       (* [$.Deferred().resolve(value).promise()] *)
| Rejected (reason : option Exn).  (* [$.Deferred().reject(...).promise()] *)

(** What a method does besides changing the command and the world. *)
Inductive Effect : Type :=
| Emitted (type : string) (args : list JsValue)
| ActionInvoked (self : JsValue) (args : list JsValue)
| Warned (msg : string) (thrown : Exn)   (* [console.warn(msg, e)] *)
| TimeoutSet.                      (* [setTimeout(() => this._finishExecute())] *)

Record t : Type := Mk {
  _canExecute : option JsFunction;
  _execute : JsFunction;
  _context : JsValue;
  _isRunning : bool;
  _promise : option Promise
}.

Record Run (A : Type) : Type := MkRun {
  outcome : Outcome A;
  command : t;
  world : World;
  effects : list Effect
}.
Arguments MkRun {A} _ _ _ _.

(** [new Command({canExecute, execute}, context)], without modifiers. *)
Definition new (canExecute : option JsFunction) (execute : JsFunction)
    (context : option JsValue) : t :=
  Mk canExecute execute
     (match context with Some v => js_or v VNull | None => VNull end)
     false None.

Definition isRunning (cmd : t) : bool := _isRunning cmd.
Definition context (cmd : t) : JsValue := _context cmd.
Definition action (cmd : t) : JsFunction := _execute cmd.

(** [canExecute(...args)] *)
Definition canExecute (cmd : t) (args : list JsValue) (w : World)
    : Outcome JsValue * World :=
  if isRunning cmd then (Return (VBool false), w)
  else
    match _canExecute cmd with
    | Some condition => condition (_context cmd) args w
    | None => (Return (VBool true), w)
    end.

Definition has_always (v : JsValue) : bool :=
  match v with VDeferred _ => true | _ => false end.

(** Whether [e.message] can be evaluated: it cannot when the action threw
    [undefined] or [null]. *)
Definition has_members (e : Exn) : bool :=
  match e with
  | Thrown v => negb (isNullish v)
  | TypeError _ | RangeError _ | Error _ => true
  end.

(** [execute(...args)]. When the action throws, the [catch] block evaluates
    [e.message] before anything else: on a thrown [undefined] or [null] that
    fails, and the TypeError leaves [execute] with the command running, no
    promise stored, nothing reported and no timer set. *)
Definition execute (cmd : t) (args : list JsValue) (w : World) : Run Promise :=
  let (can, w1) := canExecute cmd args w in
  match can with
  | Throw e => MkRun (Throw e) cmd w1 []
  | Return can =>
      if truthy can then
        let started :=
          [Emitted "canExecute" []; Emitted "execute" [VStr "started"];
           ActionInvoked (context cmd) args] in
        let (result, w2) := action cmd (context cmd) args w1 in
        match result with
        | Return result =>
            let promise :=
              if truthy result && has_always result then Adopted result
              else Resolved result in
            MkRun (Return promise)
              (Mk (_canExecute cmd) (_execute cmd) (_context cmd) true (Some promise))
              w2 (started ++ [TimeoutSet])%list
        | Throw e =>
            if has_members e then
              let promise := Rejected (Some e) in
              MkRun (Return promise)
                (Mk (_canExecute cmd) (_execute cmd) (_context cmd) true
                    (Some promise))
                w2
                (started ++
                 [Warned "Command action failed with exception" e;
                  TimeoutSet])%list
            else
              MkRun (Throw (cannot_read "message"))
                (Mk (_canExecute cmd) (_execute cmd) (_context cmd) true
                    (_promise cmd))
                w2 started
        end
      else MkRun (Throw (Error "Cannot execute this command now")) cmd w1 []
  end.

(** [tryExecute(...args)] *)
Definition tryExecute (cmd : t) (args : list JsValue) (w : World) : Run Promise :=
  let (can, w1) := canExecute cmd args w in
  match can with
  | Throw e => MkRun (Throw e) cmd w1 []
  | Return can =>
      if truthy can then execute cmd args w1
      else MkRun (Return (Rejected None)) cmd w1 []
  end.
(** The callback that [_finishExecute] hands to [always]: it runs when the
    promise is settled. *)
Definition finished (cmd : t) (w : World) : Run unit :=
  MkRun (Return tt)
    (Mk (_canExecute cmd) (_execute cmd) (_context cmd) false None) w
    [Emitted "canExecute" []; Emitted "execute" [VStr "finished"]].

(** Whether [always] finds the promise settled; [settled] answers for a
    promise that the action returned, at the time of the call. The promises
    the command makes itself are resolved or rejected from the start. *)
Definition is_settled (settled : JsValue -> bool) (p : Promise) : bool :=
  match p with
  | Adopted result => settled result
  | Resolved _ | Rejected _ => true
  end.

(** [_finishExecute()], as the timer of [execute] runs it. On a pending
    promise the callback is only registered. *)
Definition _finishExecute (settled : JsValue -> bool) (cmd : t) (w : World)
    : Run unit :=
  match _promise cmd with
  | Some p =>
      if is_settled settled p then finished cmd w else MkRun (Return tt) cmd w []
  | None => MkRun (Throw (cannot_read "always")) cmd w []
  end.
End WithWorld.

Arguments Mk {World} _ _ _ _ _.
Arguments _canExecute {World} _.
Arguments _execute {World} _.
Arguments _context {World} _.
Arguments _isRunning {World} _.
Arguments _promise {World} _.
Arguments MkRun {World A} _ _ _ _.
Arguments outcome {World A} _.
Arguments command {World A} _.
Arguments world {World A} _.
Arguments effects {World A} _.
Arguments new {World} _ _ _.
Arguments isRunning {World} _.
Arguments context {World} _.
Arguments action {World} _.
Arguments canExecute {World} _ _ _.
Arguments execute {World} _ _ _.
Arguments tryExecute {World} _ _ _.
Arguments finished {World} _ _.
Arguments _finishExecute {World} _ _ _.

(** [Command.ext.once(command)]. The variable [executed] of the closure is
    kept in the world, beside what the original functions see. [resolved]
    answers, for a promise the action returns, whether [done] finds it
    resolved already (else the mark is set later, by [once_done]). *)
Definition once {World : Type} (resolved : JsValue -> bool) (cmd : t World)
    : t (bool * World) :=
  Mk (Some (fun self args ew =>
              let (executed, w) := (ew : bool * World) in
              if executed then (Return (VBool false), ew)
              else
                match _canExecute cmd with
                | Some condition =>
                    let (r, w') := condition self args w in (r, (executed, w'))
                | None => (Return (VBool true), ew)
                end))
     (fun self args ew =>
        let (executed, w) := (ew : bool * World) in
        let (r, w') := _execute cmd self args w in
        match r with
        | Return result =>
            if truthy result && has_always result then
              (Return result, (if resolved result then true else executed, w'))
            else (Return result, (true, w'))
        | Throw e => (Throw e, (executed, w'))
        end)
     (_context cmd) (_isRunning cmd) (_promise cmd).

(** The callback [() => { executed = true }] given to [done]. *)
Definition once_done {World : Type} (ew : bool * World) : bool * World :=
  (true, snd ew).

(** [command.resetOnce()] *)
Definition resetOnce {World : Type} (ew : bool * World) : bool * World :=
  (false, snd ew).
End Command.

(** ** The registry of descriptors along the prototype chain *)

Module Registry.
(** One constructor's [dataContext$properties]. *)
Definition Table : Type := list (string * Property).

(** What the walks of [DataContext.properties()] and
    [DataContext.property(name)] read at each prototype, the most derived
    first: [prototype.constructor.dataContext$properties], or nothing. *)
Definition Chain : Type := list (option Table).

(** [_.defaults(result, source)]: a key of the source is added when the
    result has none. (The result starts as [{}]; this is what [_.defaults]
    does for keys that [Object.prototype] does not define.) *)
Definition defaults (result source : Table) : Table :=
  fold_left (fun acc kv =>
               match lookup (fst kv) acc with
               | Some _ => acc
               | None => (acc ++ [kv])%list
               end)
            source result.

(** [DataContext.properties()] without arguments. *)
Definition properties (chain : Chain) : Table :=
  fold_left (fun result level =>
               match level with
               | Some table => defaults result table
               | None => result
               end)
            chain [].

(** What [DataContext.property(name)] returns: a descriptor, or the member
    of [Object.prototype] that [name in properties] finds through the
    prototype of a table. *)
Inductive Found : Type :=
| Descriptor (d : Property)
| ObjectMember (name : string).

(** [DataContext.property(name)] without definition; [object_member] says
    which names [Object.prototype] defines. *)
Fixpoint property (object_member : string -> bool) (chain : Chain) (name : string)
    : option Found :=
  match chain with
  | [] => None
  | Some table :: rest =>
      match lookup name table with
      | Some descriptor => Some (Descriptor descriptor)
      | None =>
          if object_member name then Some (ObjectMember name)
          else property object_member rest name
      end
  | None :: rest => property object_member rest name
  end.
End Registry.

(** ** Instances used to run the model *)

Module Samples.
Definition no_fields : Fields := MkFields [] Errors.empty.

(** [Model.properties({a: {dependent: ['b']}, b: {default: d}})], with one
    listener attached. *)
Definition pair_properties (d : JsValue) : list (string * Property) :=
  [("a", plainProperty VUndefined (Some ["b"])); ("b", plainProperty d None)].

Definition pair_context (d : JsValue) : DataContext :=
  this (attach 7 (MkDataContext 1 no_fields false [] [] (pair_properties d))).

(** [Counter.properties({count: {default: 5}, start: {execute() {...}}})] *)
Definition counter : DataContext :=
  MkDataContext 1 no_fields false [] []
    [("count", plainProperty (VNum 5) None); ("start", commandProperty "start" None)].

(** A leaf context, valid or with one error on [name]. *)
Definition leaf (id : nat) (errs : Errors.t) : DataContext :=
  MkDataContext id (MkFields [] errs) false [] []
    [("name", plainProperty (VStr "") None)].

Definition bad : Errors.t := Errors.add "name" "required" Errors.empty.

(** [Form.properties({left: {component: Leaf}, right: {component: Leaf}})] *)
Definition form (own left right : Errors.t) : DataContext :=
  MkDataContext 1 (MkFields [] own) false
    [("_left", leaf 2 left); ("_right", leaf 3 right)] []
    [("left", componentProperty "Leaf"); ("right", componentProperty "Leaf")].

(** [{name: {get() {...}, set(v) { this._name = v; this.check(...) ; throw }}}]:
    a setter that records an error and throws. *)
Definition throwing_setter : Property :=
  MkProperty VUndefined
    (Some (fun f => match lookup "_name" (ivars f) with
                    | Some v => v
                    | None => VUndefined
                    end))
    (Some (fun v f =>
             (MkFields (assign "_name" v (ivars f)) (Errors.add "name" "bad" (_errors f)),
              Throw (Error "setter failed"))))
    None None false.


Definition fragile : DataContext :=
  MkDataContext 1 no_fields false [] [("name", [7])] [("name", throwing_setter)].

(** [Holder.properties({inner: {component: Fragile}})] *)
Definition holder : DataContext :=
  MkDataContext 2 no_fields false [("_inner", fragile)] []
    [("inner", componentProperty "Fragile")].

(** A controller on the counter, not yet attached. *)
Definition fresh_controller : Controller.t := Controller.Mk counter None [].

(** [new Command({execute() { return 1 }, canExecute() { return false }}, ctx)],
    in a world that counts the calls of the action. *)
Definition counting_action : Command.JsFunction nat :=
  fun _ _ w => (Return (VNum 1), S w).

Definition never : Command.JsFunction nat := fun _ _ w => (Return (VBool false), w).
Definition always : Command.JsFunction nat := fun _ _ w => (Return (VBool true), w).

Definition blocked : Command.t nat :=
  Command.new (Some never) counting_action (Some (VObj 1)).
Definition allowed : Command.t nat :=
  Command.new (Some always) counting_action (Some (VObj 1)).
Definition unconditional : Command.t nat :=
  Command.new None counting_action None.
Definition running : Command.t nat :=
  Command.Mk (Some always) counting_action (VObj 1) true None.
(** [Person.properties({first: {default: 'A', dependent: ['full']},
    full: {default: 'A B', dependent: ['first']}})]: two properties that name
    each other as dependents. *)
Definition mutual : DataContext :=
  MkDataContext 1 no_fields false [] [("first", [7])]
    [("first", plainProperty (VStr "A") (Some ["full"]));
     ("full", plainProperty (VStr "A B") (Some ["first"]))].

(** [Point.properties({A: {default: 0}, B: {default: 2}})], with [B] assigned 7. *)
Definition point : DataContext :=
  MkDataContext 1 (MkFields [("_B", VNum 7)] Errors.empty) false [] [("A", [7])]
    [("A", plainProperty (VNum 0) None); ("B", plainProperty (VNum 2) None)].

(** A subclass table over a base table, with [Object.prototype] above. *)
Definition chain : Registry.Chain :=
  [Some [("B", plainProperty (VNum 3) None)];
   Some [("A", plainProperty (VNum 0) None); ("B", plainProperty (VNum 2) None)];
   None].

(** Some of the names that [Object.prototype] defines. *)
Definition object_member (name : string) : bool :=
  existsb (String.eqb name)
    ["constructor"; "toString"; "toLocaleString"; "valueOf"; "hasOwnProperty";
     "isPrototypeOf"; "propertyIsEnumerable"].

(** A controller whose listener 9 is attached to the counter. *)
Definition attached_controller : Controller.t :=
  snd (Controller._attachViewModel 9 fresh_controller).

(** [new Command({execute() { throw new Error('boom') }}, ctx)] *)
Definition failing_action : Command.JsFunction nat :=
  fun _ _ w => (Throw (Error "boom"), S w).

Definition failing : Command.t nat :=
  Command.new None failing_action (Some (VObj 1)).

(** [new Command({execute() { throw null }}, ctx)] *)
Definition failing_null : Command.t nat :=
  Command.new None (fun _ _ w => (Throw (Thrown VNull), S w)) (Some (VObj 1)).

(** [canExecute() { return calls++ === 0 }]: a condition that answers true
    the first time it is asked only; the world counts the questions. *)
Definition first_time_only : Command.JsFunction nat :=
  fun _ _ w => (Return (VBool (Nat.eqb w 0)), S w).

Definition flip_flop : Command.t nat :=
  Command.new (Some first_time_only) counting_action (Some (VObj 1)).

(** No promise of an action is settled. *)
Definition pending : JsValue -> bool := fun _ => false.
End Samples.

(** ** Vocabulary of the statements *)

(** [keeps proj m]: running [m] does not change the part [proj] of the
    receiver, whether it returns or throws. *)
Definition keeps {X A} (proj : DataContext -> X) (m : M A) : Prop :=
  forall c, proj (this (m c)) = proj c.

(** The parts of a data context that no assignment to a property with a
    private variable of its own touches. *)
Definition shell (c : DataContext) : bool * EventEmitter.t * list (string * Property) :=
  (_validating c, _listeners c, properties c).


(** Every component property, here and below, holds a value whose members
    can be read (it is neither undefined nor null). *)
Fixpoint intact (c : DataContext) : bool :=
  forallb (fun np =>
             match component (snd np) with
             | Some _ =>
                 match receiver_in (components c) c (fst np) (snd np) with
                 | RNullish => false
                 | _ => true
                 end
             | None => true
             end)
          (properties c)
  && forallb (fun kc => intact (snd kc)) (components c).

(** How many times [l] is subscribed to the change event of [name]. *)
Definition subscriptions (c : DataContext) (name : string) (l : Listener) : nat :=
  count_occ Nat.eq_dec (EventEmitter.listeners (_listeners c) name) l.

(** How many of the calls go to [l]. *)
Definition delivered (l : Listener) (cs : list Call) : nat :=
  List.length (filter (fun call => Nat.eqb (target call) l) cs).

(** Every declared property has the generated accessors of
    [makeDefaultRWProperty]: its descriptor gives no getter. *)
Definition default_accessors (c : DataContext) : Prop :=
  forall name d, In (name, d) (properties c) -> get d = None.

(** No declared property is a component. *)
Definition no_components (c : DataContext) : Prop :=
  forall name d, In (name, d) (properties c) -> component d = None.

(** The declared names are distinct, as the keys of an object are. *)
Definition distinct_names (c : DataContext) : Prop :=
  NoDup (map fst (properties c)).

(** The names that a data context has without declaring any property: its
    own fields, the methods of [DataContext] and the hook [__init],
    [__proto__], and the names that an emitter may claim for its interface
    and its state (the package is not among the sources: the list is wide
    on purpose). *)
Definition members : list string :=
  ["_errors"; "_validating"; "__init"; "__proto__"; "constructor";
   "firePropertyChange"; "reset"; "putAll"; "errors"; "hasErrors"; "isValid";
   "check"; "clearErrors"; "properties"; "property"; "validate";
   "validating"; "attach"; "detach"; "runningCommands";
   "on"; "off"; "once"; "emit"; "listeners"; "maxListeners";
   "addListener"; "removeListener"; "removeAllListeners"; "setMaxListeners";
   "getMaxListeners"; "listenerCount"; "eventNames"; "trigger";
   "_listeners"; "_maxListeners"; "_events"; "_eventsCount"; "_callbacks";
   "_handlers"; "_once"].

Definition is_member (k : string) : bool := existsb (String.eqb k) members.

(** The private variable ["_" ++ name] of every declared property, here and
    below, is private indeed: neither the name nor the variable is a member
    the object has already, and the variable is not a declared property
    itself. (A property named [validating] would keep its value in the
    validating flag, one named [a] next to one named [_a] in the accessor of
    the latter.) *)
Fixpoint private_slots (c : DataContext) : bool :=
  forallb (fun np =>
             negb (is_member (fst np)) && negb (is_member ("_" ++ fst np))
             && match property c ("_" ++ fst np) with
                | Some _ => false
                | None => true
                end)
          (properties c)
  && forallb (fun kc => private_slots (snd kc)) (components c).

(** [l] is attached: subscribed once to every declared property. *)
Definition attached (l : Listener) (c : DataContext) : Prop :=
  forall name, In name (map fst (properties c)) -> subscriptions c name l = 1.

(** Every property of the set has a dependent in the set that is declared
    and whose current value is not undefined: from each of them a re-fire
    leads to another one. *)
Definition refire_closed (c : DataContext) (names : string -> Prop) : Prop :=
  forall p, names p ->
    exists d deps q,
      property c p = Some d /\ dependent d = Some deps /\ In q deps /\
      names q /\ property c q <> None /\ getProp c q <> VUndefined.

(** The argument of [reset] and [putAll] as the object they read. *)
Definition data_of (newData : option (list (string * JsValue)))
    : list (string * JsValue) :=
  match newData with Some d => d | None => [] end.

(** No data context of the tree is inside a validating pass. *)
Fixpoint idle (c : DataContext) : bool :=
  negb (_validating c) && forallb (fun kc => idle (snd kc)) (components c).

(** The same for the components only. *)
Definition components_idle (c : DataContext) : bool :=
  forallb (fun kc => idle (snd kc)) (components c).

(** A method keeps the components idle. *)
Definition keeps_idle {A} (m : M A) : Prop :=
  forall c, components_idle c = true -> components_idle (this (m c)) = true.

(** The body of [validate()], over what [validate()] does on a component. *)
Definition validate_with (validateChild : DataContext -> Result bool) (fuel : nat)
    (c : DataContext) : Result bool :=
  let (changedProps, tried) :=
    validate_pass (validate_property validateChild fuel) (properties c) []
      (with_validating true c) in
  let fired :=
    each (fun name self =>
            let val := getProp self name in
            firePropertyChange fuel name val val self)
         changedProps (with_validating false (this tried)) in
  let seen := (calls tried ++ calls fired)%list in
  match outcome fired, outcome tried with
  | Throw e, _ => MkResult (Throw e) (this fired) seen
  | Return _, Throw e => MkResult (Throw e) (this fired) seen
  | Return _, Return _ => MkResult (isValid (this fired) None) (this fired) seen
  end.

(** One step of a bulk assignment: [name] is assigned what [choose] gives
    for it, or skipped. *)
Definition assign_chosen (fuel : nat) (choose : string -> Property -> option JsValue)
    (np : string * Property) : M unit :=
  match choose (fst np) (snd np) with
  | Some v => setProp fuel (fst np) v
  | None => ret tt
  end.

(** What [reset(newData)] assigns. *)
Definition reset_choice (newData : option (list (string * JsValue)))
    (name : string) (d : Property) : option JsValue :=
  if writable d then Some (js_or (data_get (data_of newData) name) (default d))
  else None.


(** * Properties *)

(** ** Association lists *)

Lemma lookup_assign {A} (k k' : string) (a : A) (l : list (string * A)) :
  lookup k' (assign k a l) = if String.eqb k k' then Some a else lookup k' l.
Proof.
  induction l as [|[k0 a0] l IH]; simpl.
  - reflexivity.
  - destruct (String.eqb k0 k) eqn:E0; simpl.
    + apply String.eqb_eq in E0; subst k0.
      destruct (String.eqb k k'); reflexivity.
    + rewrite IH. destruct (String.eqb k0 k') eqn:E1; [|reflexivity].
      apply String.eqb_eq in E1; subst k0.
      rewrite String.eqb_sym, E0. reflexivity.
Qed.

(** ** What a method leaves alone *)

Lemma keeps_ret {X A} (proj : DataContext -> X) (a : A) : keeps proj (ret a).
Proof. intro c. reflexivity. Qed.

Lemma keeps_throw {X A} (proj : DataContext -> X) (e : Exn) :
  keeps proj (@throw A e).
Proof. intro c. reflexivity. Qed.

Lemma keeps_bind {X A B} (proj : DataContext -> X) (m : M A) (f : A -> M B) :
  keeps proj m -> (forall a, keeps proj (f a)) -> keeps proj (bind m f).
Proof.
  intros Hm Hf c. unfold bind. destruct (outcome (m c)) eqn:E; simpl.
  - rewrite Hf. apply Hm.
  - apply Hm.
Qed.

Lemma keeps_each {X A} (proj : DataContext -> X) (f : A -> M unit) (l : list A) :
  (forall x, keeps proj (f x)) -> keeps proj (each f l).
Proof.
  intros Hf. induction l as [|x l IH]; simpl.
  - apply keeps_ret.
  - apply keeps_bind; [apply Hf | intros _; exact IH].
Qed.

Lemma keeps_everyM {X A} (proj : DataContext -> X) (f : A -> M bool) (l : list A) :
  (forall x, keeps proj (f x)) -> keeps proj (everyM f l).
Proof.
  intros Hf. induction l as [|x l IH]; simpl.
  - apply keeps_ret.
  - apply keeps_bind; [apply Hf|]. intros [|]; [exact IH | apply keeps_ret].
Qed.

Lemma keeps_call {X A} (proj : DataContext -> X) (f : DataContext -> Outcome A) :
  keeps proj (call f).
Proof. intro c. reflexivity. Qed.

Create HintDb keeps.
#[local] Hint Resolve keeps_ret keeps_throw keeps_call : keeps.

Lemma keeps_fireIfChanged {X} (proj : DataContext -> X) fire name nv ov :
  (forall n a b, keeps proj (fire n a b)) -> keeps proj (fireIfChanged fire name nv ov).
Proof.
  intros H. unfold fireIfChanged.
  destruct (negb (strict_eq ov nv)); auto with keeps.
Qed.

(** Firing a change leaves the data context as it is. *)
Lemma firePropertyChange_this fuel :
  forall name nv ov, keeps (fun c => c) (firePropertyChange fuel name nv ov).
Proof.
  induction fuel as [|fuel IH]; intros name nv ov c; simpl.
  - destruct (negb (_validating c)); reflexivity.
  - destruct (negb (_validating c)); [|reflexivity].
    match goal with |- this (?m c) = c =>
      assert (K : keeps (fun x => x) m); [|exact (K c)] end.
    apply keeps_bind.
    + intro c0. reflexivity.
    + intros _. destruct (property c name) as [d|]; [|apply keeps_ret].
      destruct (dependent d) as [deps|]; [|apply keeps_ret].
      apply keeps_each. intros p c1. simpl.
      destruct (property c1 p); [|reflexivity].
      apply (keeps_fireIfChanged (fun x => x)). intros. apply IH.
Qed.

Lemma keeps_fire {X} (proj : DataContext -> X) fuel name nv ov :
  keeps proj (firePropertyChange fuel name nv ov).
Proof. intro c. rewrite (firePropertyChange_this fuel name nv ov c). reflexivity. Qed.

Lemma keeps_each_in {X A} (proj : DataContext -> X) (f : A -> M unit) (l : list A) :
  (forall x, In x l -> keeps proj (f x)) -> keeps proj (each f l).
Proof.
  induction l as [|x l IH]; intros Hf; simpl.
  - apply keeps_ret.
  - apply keeps_bind; [apply Hf; left; reflexivity|].
    intros _. apply IH. intros y Hy. apply Hf. right. exact Hy.
Qed.

(** A private variable other than the flag. *)
Lemma shell_set_ivar k v c : k <> "_validating" -> shell (set_ivar k v c) = shell c.
Proof.
  intros H. unfold set_ivar. destruct (String.eqb_spec k "_validating"); [contradiction|].
  reflexivity.
Qed.

Lemma private_names c name d :
  private_slots c = true -> In (name, d) (properties c) ->
  name <> "validating" /\ name <> "_validating" /\ property c ("_" ++ name) = None.
Proof.
  intros H Hin. destruct c as [id f v cs ls ps].
  cbn [private_slots properties components] in H.
  cbn [properties] in Hin.
  apply andb_prop in H. destruct H as [H _].
  rewrite forallb_forall in H. specialize (H _ Hin). cbn [fst] in H.
  apply andb_prop in H. destruct H as [H H3].
  apply andb_prop in H. destruct H as [H1 H2].
  repeat split.
  - intros ->. cbv in H1. discriminate H1.
  - intros ->. cbv in H1. discriminate H1.
  - destruct (property _ ("_" ++ name)); [discriminate H3 | reflexivity].
Qed.

(** An assignment keeps the shell, unless it is one to the flag. *)
Lemma keeps_setProp fuel name v :
  name <> "validating" -> name <> "_validating" -> keeps shell (setProp fuel name v).
Proof.
  intros H1 H2 c. unfold setProp.
  assert (H1' : "_" ++ name <> "_validating").
  { intros E. apply H1. injection E as E. exact E. }
  destruct (property c name) as [d|]; [|apply shell_set_ivar; exact H2].
  destruct (get d) as [g|], (set d) as [s|].
  - destruct (s v (fields c)) as [f' [u|e]].
    + rewrite keeps_fireIfChanged; [reflexivity | intros; apply keeps_fire].
    + reflexivity.
  - reflexivity.
  - rewrite keeps_fireIfChanged; [|intros; apply keeps_fire].
    apply shell_set_ivar. exact H1'.
  - rewrite keeps_fireIfChanged; [|intros; apply keeps_fire].
    apply shell_set_ivar. exact H1'.
Qed.

Lemma keeps_reset fuel newData c :
  private_slots c = true -> shell (this (reset fuel newData c)) = shell c.
Proof.
  intros H. unfold reset. apply (keeps_each_in shell). intros [name d] Hin.
  destruct (private_names c name d H Hin) as [H1 [H2 _]].
  destruct (writable d); [apply keeps_setProp; assumption | apply keeps_ret].
Qed.

Lemma keeps_putAll fuel newData c :
  private_slots c = true -> shell (this (putAll fuel newData c)) = shell c.
Proof.
  intros H. unfold putAll. destruct newData as [nd|]; [|reflexivity].
  apply (keeps_each_in shell). intros [name d] Hin.
  destruct (private_names c name d H Hin) as [H1 [H2 _]].
  destruct (writable d), (lookup name nd); try apply keeps_ret.
  apply keeps_setProp; assumption.
Qed.

Lemma keeps_on_component {A} (k : string) (r : Result A) : keeps shell (on_component k r).
Proof. intro c. reflexivity. Qed.

Lemma keeps_clearErrors key : forall c, shell (this (clearErrors c key)) = shell c.
Proof.
  intros c. destruct c as [id f v cs ls ps]. simpl.
  destruct (is_null key); [|reflexivity].
  match goal with |- shell (this (bind ?m ?k ?c0)) = _ =>
    change (shell (this (bind m k c0)) = shell c0) end.
  apply (keeps_bind shell); [|intros; apply keeps_ret].
  apply keeps_everyM. intros [name d] c1.
  destruct (component d); [|reflexivity].
  match goal with |- context [match ?r with RNullish => _ | _ => _ end] =>
    destruct r end.
  - reflexivity.
  - apply (keeps_bind shell); [apply keeps_on_component | intros; apply keeps_ret].
  - reflexivity.
Qed.

#[local] Hint Resolve keeps_on_component : keeps.







Lemma shell_validating c c' : shell c' = shell c -> _validating c' = _validating c.
Proof. unfold shell. intros H. injection H as H _ _. exact H. Qed.

(** ** The validating flag *)




(** ** Default read-write properties *)

Lemma firePropertyChange_S fuel name nv ov c :
  firePropertyChange (S fuel) name nv ov c
  = if negb (_validating c) then
      (emitM name nv name ov ;;
       match property c name with
       | Some descriptor =>
           match dependent descriptor with
           | Some deps =>
               each (fun p self =>
                       match property self p with
                       | Some _ =>
                           fireIfChanged (firePropertyChange fuel) p
                             (getProp self p) VUndefined self
                       | None => ret tt self
                       end) deps
           | None => ret tt
           end
       | None => ret tt
       end) c
    else ret tt c.
Proof. reflexivity. Qed.


(** C9: a default read-write property whose private variable is still
    undefined reads as its default [d]; assigning it [d] (not undefined)
    passes the helper's comparison, because the old value is the raw
    variable, and so runs [firePropertyChange(name, d, undefined)]: outside a
    validating pass every subscriber of [name] is called with [d] as new and
    undefined as old value. *)
Theorem default_rw_first_assignment_fires :
  forall c name p d,
    property c name = Some p ->
    get p = None ->
    ivar c ("_" ++ name) = VUndefined ->
    default p = d ->
    d <> VUndefined ->
    getProp c name = d /\
    (forall fuel,
        setProp fuel name d c
        = firePropertyChange fuel name d VUndefined (set_ivar ("_" ++ name) d c)) /\
    (validating c = false ->
     forall fuel, exists rest,
       calls (setProp (S fuel) name d c)
       = (emit c name d name VUndefined ++ rest)%list).
Proof.
  intros c name p d Hp Hg Hi Hd Hne.
  assert (Hset : forall n, setProp n name d c
            = firePropertyChange n name d VUndefined (set_ivar ("_" ++ name) d c)).
  { intros n. unfold setProp. rewrite Hp, Hg. cbv zeta. rewrite Hi.
    unfold fireIfChanged, strict_eq.
    destruct (JsValue_eq_dec VUndefined d) as [E|_]; [|reflexivity].
    exfalso. apply Hne. symmetry. exact E. }
  repeat split.
  - unfold getProp. rewrite Hp, Hg, Hi. simpl. exact Hd.
  - apply Hset.
  - intros Hv fuel. rewrite Hset. unfold validating in Hv.
    assert (Hk : "_" ++ name <> "_validating").
    { intros E. rewrite E in Hi. discriminate Hi. }
    pose proof (shell_set_ivar ("_" ++ name) d c Hk) as Hs.
    set (c' := set_ivar ("_" ++ name) d c) in *.
    rewrite firePropertyChange_S.
    unfold shell in Hs. injection Hs as Hs1 Hs2 _.
    rewrite Hs1, Hv.
    cbn [negb]. unfold bind at 1. cbn [emitM outcome this calls].
    unfold emit. rewrite Hs2. eexists. reflexivity.
Qed.

(** The descriptor [count: {default: 5}] of [Samples.counter], assigned its
    own default while unset, with listener 7 on [count]. *)
Lemma default_rw_first_assignment_fires_witness :
  let c := with_listeners [("count", [7])] Samples.counter in
  getProp c "count" = VNum 5 /\
  setProp 1 "count" (VNum 5) c
  = firePropertyChange 1 "count" (VNum 5) VUndefined (set_ivar "_count" (VNum 5) c) /\
  exists rest,
    calls (setProp 1 "count" (VNum 5) c)
    = (MkCall 7 (VNum 5) "count" VUndefined :: rest).
Proof.
  intros c.
  destruct (default_rw_first_assignment_fires c "count"
              (plainProperty (VNum 5) None) (VNum 5)
              eq_refl eq_refl eq_refl eq_refl ltac:(discriminate)) as [G [E F]].
  split; [exact G|]. split; [exact (E 1)|].
  destruct (F eq_refl 0) as [rest R]. exists rest. exact R.
Defined.

(** ** Re-firing dependent properties *)

(** What the re-fire of one dependent does, for a property [name] whose only
    dependent [p] is declared and has no dependents of its own: after the
    event of [name], one event of [p] with [this[p]] as new and undefined as
    old value, and none when [this[p]] is undefined. *)
Lemma firePropertyChange_one_dependent fuel c name d p dp nv ov :
  _validating c = false ->
  property c name = Some d -> dependent d = Some [p] ->
  property c p = Some dp -> dependent dp = None ->
  calls (firePropertyChange (S (S fuel)) name nv ov c)
  = (emit c name nv name ov ++
     if isUndefined (getProp c p) then []
     else emit c p (getProp c p) p VUndefined)%list.
Proof.
  intros Hv Hd Hdep Hp Hdp.
  rewrite firePropertyChange_S, Hv, Hd, Hdep.
  unfold bind. cbn -[firePropertyChange emit getProp property].
  unfold bind. cbn -[firePropertyChange emit getProp property].
  rewrite Hp. unfold fireIfChanged, strict_eq.
  destruct (JsValue_eq_dec VUndefined (getProp c p)) as [E|E].
  - rewrite <- E. reflexivity.
  - cbn -[firePropertyChange emit getProp property].
    rewrite firePropertyChange_S, Hv, Hp, Hdp.
    unfold bind. cbn -[emit getProp]. rewrite !app_nil_r.
    destruct (getProp c p); try reflexivity. contradiction E. reflexivity.
Qed.

(** C1: on [Samples.pair_context d], where [a] declares the dependent [b]
    and listener 7 is attached, [firePropertyChange("a", 1, 0)] re-fires [b]
    with its current value 5 as new value and undefined, not 5, as old value;
    and when the current value of [b] is undefined, [b] is not re-fired. *)
Theorem dependent_refire_passes_undefined_old_value :
  forall fuel,
    getProp (Samples.pair_context (VNum 5)) "b" = VNum 5 /\
    calls (firePropertyChange (S (S fuel)) "a" (VNum 1) (VNum 0)
             (Samples.pair_context (VNum 5)))
    = [MkCall 7 (VNum 1) "a" (VNum 0); MkCall 7 (VNum 5) "b" VUndefined] /\
    getProp (Samples.pair_context VUndefined) "b" = VUndefined /\
    calls (firePropertyChange (S (S fuel)) "a" (VNum 1) (VNum 0)
             (Samples.pair_context VUndefined))
    = [MkCall 7 (VNum 1) "a" (VNum 0)].
Proof.
  intros fuel.
  split; [reflexivity|]. split.
  - rewrite (firePropertyChange_one_dependent fuel (Samples.pair_context (VNum 5)) "a"
               (plainProperty VUndefined (Some ["b"])) "b"
               (plainProperty (VNum 5) None)); reflexivity.
  - split; [reflexivity|].
    rewrite (firePropertyChange_one_dependent fuel (Samples.pair_context VUndefined) "a"
               (plainProperty VUndefined (Some ["b"])) "b"
               (plainProperty VUndefined None)); reflexivity.
Qed.

(** ** Bulk assignment *)

(** C3: on [Samples.counter] ([count] with default 5, and a command
    [start]), [reset({count: 0})] returns and leaves [count] at the default
    5, not at the 0 that is present in the data, while [putAll({count: 0})]
    sets it to 0; [reset({})] gives the default and neither touches the
    private variable of the command. *)
Theorem reset_takes_default_for_falsy_data :
  forall fuel,
    outcome (reset (S fuel) (Some [("count", VNum 0)]) Samples.counter) = Return tt /\
    getProp (this (reset (S fuel) (Some [("count", VNum 0)]) Samples.counter)) "count"
    = VNum 5 /\
    getProp (this (putAll (S fuel) (Some [("count", VNum 0)]) Samples.counter)) "count"
    = VNum 0 /\
    getProp (this (reset (S fuel) (Some []) Samples.counter)) "count" = VNum 5 /\
    ivar (this (reset (S fuel) (Some [("start", VNum 1)]) Samples.counter)) "_start"
    = VUndefined.
Proof. intros fuel. repeat split. Qed.

(** ** Clearing errors *)

(** C2: on [Samples.form], whose components [left] and [right] and the form
    itself each hold one error, [clearErrors()] returns, empties the form's
    own collector and the collector of [left], and leaves the error of
    [right] in place. *)
Theorem clearErrors_stops_after_first_component :
  let form := Samples.form Samples.bad Samples.bad Samples.bad in
  outcome (clearErrors form None) = Return tt /\
  errors (this (clearErrors form None)) None = [] /\
  map (fun kc => (fst kc, errors (snd kc) None))
      (components (this (clearErrors form None)))
  = [("_left", []); ("_right", ["required"])] /\
  hasErrors (this (clearErrors form None)) None = Return true.
Proof. repeat split. Qed.

(** ** Validity *)

Lemma lookup_map {A B} (f : A -> B) (k : string) (l : list (string * A)) :
  lookup k (map (fun kc => (fst kc, f (snd kc))) l) = option_map f (lookup k l).
Proof.
  induction l as [|[k0 a] l IH]; simpl; [reflexivity|].
  destruct (String.eqb k0 k); [reflexivity | exact IH].
Qed.

Lemma receiver_in_map {A B} (f : A -> B) kids c name d :
  receiver_in (map (fun kc => (fst kc, f (snd kc))) kids) c name d
  = match receiver_in kids c name d with
    | RNullish => RNullish
    | RContext a => RContext (f a)
    | ROther => ROther
    end.
Proof.
  unfold receiver_in. destruct (get d).
  - unfold classify. destruct (isNullish (getProp c name)); reflexivity.
  - rewrite lookup_map. destruct (lookup ("_" ++ name) kids); simpl; [reflexivity|].
    unfold classify. destruct (isNullish (getProp c name)); reflexivity.
Qed.

Lemma every_ext {A} (f g : A -> Outcome bool) (l : list A) :
  (forall x, f x = g x) -> every f l = every g l.
Proof.
  intros H. induction l as [|x l IH]; simpl; [reflexivity|].
  rewrite H, IH. reflexivity.
Qed.

(** [isValid()] in terms of the components themselves. *)
Lemma isValid_unfold c key :
  isValid c key
  = if Errors.isValid (_errors (fields c)) key && is_null key then
      every (fun np =>
               match component (snd np) with
               | Some _ =>
                   match receiver c (fst np) (snd np) with
                   | RNullish => Throw (cannot_read "isValid")
                   | RContext child => isValid child None
                   | ROther => Return true
                   end
               | None => Return true
               end)
            (properties c)
    else Return (Errors.isValid (_errors (fields c)) key).
Proof.
  destruct c as [id f v cs ls ps].
  cbn [isValid fields properties components].
  destruct (Errors.isValid (_errors f) key && is_null key); [|reflexivity].
  apply every_ext. intros [name d]. cbn [fst snd].
  destruct (component d); [|reflexivity].
  unfold receiver. cbn [components].
  rewrite (receiver_in_map (fun child => isValid child None)).
  destruct (receiver_in cs _ name d); reflexivity.
Qed.

Lemma every_true {A} (f : A -> Outcome bool) (l : list A) :
  every f l = Return true <-> forall x, In x l -> f x = Return true.
Proof.
  induction l as [|x l IH]; simpl.
  - split; [intros _ y [] | reflexivity].
  - destruct (f x) as [[|]|e] eqn:E.
    + rewrite IH. split.
      * intros H y [<-|Hy]; [exact E | apply H, Hy].
      * intros H y Hy. apply H. right. exact Hy.
    + split; [discriminate|]. intros H. rewrite <- E. apply H. left. reflexivity.
    + split; [discriminate|]. intros H. rewrite <- E. apply H. left. reflexivity.
Qed.

Lemma every_returns {A} (f : A -> Outcome bool) (l : list A) :
  (forall x, In x l -> exists b, f x = Return b) -> exists b, every f l = Return b.
Proof.
  induction l as [|x l IH]; simpl; intros H.
  - exists true. reflexivity.
  - destruct (H x (or_introl eq_refl)) as [[|] E]; rewrite E.
    + apply IH. intros y Hy. apply H. right. exact Hy.
    + exists false. reflexivity.
Qed.

Lemma every_false {A} (f : A -> Outcome bool) (l : list A) (x : A) :
  In x l -> f x = Return false -> every f l <> Return true.
Proof.
  intros Hin Hx H. rewrite every_true in H. rewrite (H x Hin) in Hx. discriminate.
Qed.




(** Induction over the tree of owned components. *)
Lemma DataContext_tree_ind (P : DataContext -> Prop) :
  (forall c, (forall k child, In (k, child) (components c) -> P child) -> P c) ->
  forall c, P c.
Proof.
  intros step. fix IH 1. intros [id f v cs ls ps]. apply step. simpl.
  induction cs as [|[k0 child0] cs IHcs]; intros k child Hin.
  - destruct Hin.
  - destruct Hin as [E|Hin].
    + injection E as _ <-. apply IH.
    + exact (IHcs k child Hin).
Qed.

Lemma lookup_In {A} (k : string) (a : A) (l : list (string * A)) :
  lookup k l = Some a -> In (k, a) l.
Proof.
  induction l as [|[k0 a0] l IH]; simpl; [discriminate|].
  destruct (String.eqb k0 k) eqn:E.
  - apply String.eqb_eq in E. subst k0. intros H. injection H as ->. left. reflexivity.
  - intros H. right. apply IH, H.
Qed.

Lemma receiver_context c name d child :
  receiver c name d = RContext child -> In ("_" ++ name, child) (components c).
Proof.
  unfold receiver, receiver_in, classify. destruct (get d).
  - destruct (isNullish (getProp c name)); discriminate.
  - destruct (lookup ("_" ++ name) (components c)) eqn:E.
    + intros H. injection H as ->. apply lookup_In, E.
    + destruct (isNullish (getProp c name)); discriminate.
Qed.

Lemma intact_unfold c :
  intact c
  = forallb (fun np =>
               match component (snd np) with
               | Some _ =>
                   match receiver c (fst np) (snd np) with
                   | RNullish => false
                   | _ => true
                   end
               | None => true
               end)
            (properties c)
    && forallb (fun kc => intact (snd kc)) (components c).
Proof. destruct c. reflexivity. Qed.

(** On an intact tree [isValid] returns. *)
Lemma isValid_returns :
  forall c, intact c = true -> forall key, exists valid, isValid c key = Return valid.
Proof.
  induction c as [c IH] using DataContext_tree_ind. intros Hc key.
  rewrite intact_unfold in Hc. apply andb_prop in Hc. destruct Hc as [Hp Hk].
  rewrite forallb_forall in Hp, Hk. rewrite isValid_unfold.
  destruct (Errors.isValid (_errors (fields c)) key && is_null key);
    [|eexists; reflexivity].
  apply every_returns. intros [name d] Hin. specialize (Hp (name, d) Hin).
  cbn [fst snd] in *. destruct (component d); [|eexists; reflexivity].
  destruct (receiver c name d) as [|child|] eqn:R.
  - discriminate.
  - apply receiver_context in R. apply (IH _ _ R). exact (Hk _ R).
  - eexists; reflexivity.
Qed.

(** C10: [hasErrors(key)] is the negation of what [isValid(key)] returns,
    for every key and for none (and throws when [isValid] throws); on an
    intact tree both return; and when a declared component holds a data
    context whose [isValid()] is false, [hasErrors()] is true, whatever the
    context's own collector holds. *)
Theorem hasErrors_negates_isValid :
  forall c key,
    hasErrors c key
    = match isValid c key with
      | Return valid => Return (negb valid)
      | Throw e => Throw e
      end /\
    (intact c = true ->
     (exists valid, isValid c key = Return valid /\
                    hasErrors c key = Return (negb valid)) /\
     (forall name d child,
         In (name, d) (properties c) ->
         component d <> None ->
         receiver c name d = RContext child ->
         isValid child None = Return false ->
         hasErrors c None = Return true)).
Proof.
  intros c key. split; [reflexivity|]. intros Hc. split.
  - destruct (isValid_returns c Hc key) as [valid E]. exists valid.
    unfold hasErrors. rewrite E. split; reflexivity.
  - intros name d child Hin Hcomp R Hchild.
    destruct (isValid_returns c Hc None) as [valid E].
    unfold hasErrors. rewrite E. destruct valid; [|reflexivity].
    exfalso. rewrite isValid_unfold in E.
    destruct (Errors.isValid (_errors (fields c)) None); cbn [andb is_null] in E;
      [|discriminate].
    revert E. apply (every_false _ _ (name, d) Hin). cbn [fst snd].
    destruct (component d); [|contradiction Hcomp; reflexivity].
    rewrite R. exact Hchild.
Qed.

(** [Samples.form] with no error of its own, a valid [left] and an invalid
    [right]. *)
Lemma hasErrors_negates_isValid_witness :
  let form := Samples.form Errors.empty Errors.empty Samples.bad in
  intact form = true /\ errors form None = [] /\
  isValid form None = Return false /\ hasErrors form None = Return true.
Proof.
  pose (form := Samples.form Errors.empty Errors.empty Samples.bad).
  destruct (hasErrors_negates_isValid form None) as [_ H].
  destruct (H eq_refl) as [_ G].
  split; [reflexivity|]. split; [reflexivity|]. split; [reflexivity|].
  exact (G "right" (componentProperty "Leaf") (Samples.leaf 3 Samples.bad)
           (or_intror (or_introl eq_refl)) ltac:(discriminate) eq_refl eq_refl).
Defined.

(** ** Commands *)

(** C7: [canExecute(...args)] is false whenever the command is running;
    otherwise it is what the configured condition returns for the arguments
    with the command's context as [this], and true when no condition is
    configured. *)
Theorem canExecute_guarded_by_isRunning :
  forall (World : Type) (cmd : Command.t World) (args : list JsValue) (w : World),
    (Command.isRunning cmd = true ->
     Command.canExecute cmd args w = (Return (VBool false), w)) /\
    (Command.isRunning cmd = false ->
     (forall condition,
         Command._canExecute cmd = Some condition ->
         Command.canExecute cmd args w
         = condition (Command.context cmd) args w) /\
     (Command._canExecute cmd = None ->
      Command.canExecute cmd args w = (Return (VBool true), w))).
Proof.
  intros World cmd args w. unfold Command.canExecute. split.
  - intros ->. reflexivity.
  - intros ->. split.
    + intros condition ->. reflexivity.
    + intros ->. reflexivity.
Qed.

(** A running command, a command with an always-true condition, and a
    command without condition. *)
Lemma canExecute_guarded_by_isRunning_witness :
  Command.canExecute Samples.running [] 0 = (Return (VBool false), 0) /\
  Command.canExecute Samples.allowed [VNum 2] 0
  = Samples.always (VObj 1) [VNum 2] 0 /\
  Command.canExecute Samples.unconditional [] 0 = (Return (VBool true), 0).
Proof.
  split; [|split].
  - exact (proj1 (canExecute_guarded_by_isRunning nat Samples.running [] 0) eq_refl).
  - exact (proj1 (proj2 (canExecute_guarded_by_isRunning nat Samples.allowed [VNum 2] 0)
                    eq_refl) Samples.always eq_refl).
  - exact (proj2 (proj2 (canExecute_guarded_by_isRunning nat Samples.unconditional [] 0)
                    eq_refl) eq_refl).
Defined.

(** C4: when [canExecute(...args)] returns a falsy value, [execute] throws
    "Cannot execute this command now" and [tryExecute] returns an already
    rejected promise; in both cases the action is not invoked, nothing is
    emitted and the command is unchanged. When it returns a truthy value,
    [tryExecute] is [execute] on the same arguments. *)
Theorem execute_guarded_tryExecute_rejects :
  forall (World : Type) (cmd : Command.t World) (args : list JsValue)
         (w w1 : World) (can : JsValue),
    Command.canExecute cmd args w = (Return can, w1) ->
    (truthy can = false ->
     Command.execute cmd args w
     = Command.MkRun (Throw (Error "Cannot execute this command now")) cmd w1 [] /\
     Command.tryExecute cmd args w
     = Command.MkRun (Return (Command.Rejected None)) cmd w1 []) /\
    (truthy can = true ->
     Command.tryExecute cmd args w = Command.execute cmd args w1).
Proof.
  intros World cmd args w w1 can Hcan.
  unfold Command.execute, Command.tryExecute. rewrite Hcan. split.
  - intros ->. split; reflexivity.
  - intros ->. reflexivity.
Qed.

(** [Samples.blocked], whose condition is never true, and
    [Samples.allowed], whose condition always is; the world counts the
    invocations of the action. *)
Lemma execute_guarded_tryExecute_rejects_witness :
  (Command.execute Samples.blocked [] 0
   = Command.MkRun (Throw (Error "Cannot execute this command now"))
       Samples.blocked 0 [] /\
   Command.tryExecute Samples.blocked [] 0
   = Command.MkRun (Return (Command.Rejected None)) Samples.blocked 0 []) /\
  Command.tryExecute Samples.allowed [] 0 = Command.execute Samples.allowed [] 0 /\
  Command.world (Command.tryExecute Samples.allowed [] 0) = 1.
Proof.
  split; [|split].
  - exact (proj1 (execute_guarded_tryExecute_rejects nat Samples.blocked [] 0 0
                    (VBool false) eq_refl) eq_refl).
  - exact (proj2 (execute_guarded_tryExecute_rejects nat Samples.allowed [] 0 0
                    (VBool true) eq_refl) eq_refl).
  - reflexivity.
Defined.

(** ** Subscription *)

Lemma listeners_on t l e t' :
  EventEmitter.listeners (EventEmitter.on t l e) t'
  = if String.eqb t t' then EventEmitter.added l (EventEmitter.listeners e t)
    else EventEmitter.listeners e t'.
Proof.
  unfold EventEmitter.on, EventEmitter.added.
  destruct (EventEmitter.subscribed l (EventEmitter.listeners e t)).
  - destruct (String.eqb_spec t t'); subst; reflexivity.
  - unfold EventEmitter.listeners at 1.
    rewrite lookup_assign. destruct (String.eqb t t'); reflexivity.
Qed.

Lemma listeners_off t l e t' :
  EventEmitter.listeners (EventEmitter.off t l e) t'
  = if String.eqb t t' then EventEmitter.remove_first l (EventEmitter.listeners e t)
    else EventEmitter.listeners e t'.
Proof.
  unfold EventEmitter.off. unfold EventEmitter.listeners at 1.
  rewrite lookup_assign. destruct (String.eqb t t'); reflexivity.
Qed.

(** What [attach] and [detach] do to the listeners of one event, when the
    declared names are distinct. *)
Lemma each_on_listeners l (ps : list (string * Property)) :
  NoDup (map fst ps) ->
  forall c n,
    let c' := this (each (fun np => onM (fst np) l) ps c) in
    properties c' = properties c /\
    EventEmitter.listeners (_listeners c') n
    = if in_dec string_dec n (map fst ps)
      then EventEmitter.added l (EventEmitter.listeners (_listeners c) n)
      else EventEmitter.listeners (_listeners c) n.
Proof.
  induction ps as [|[name d] ps IH]; intros Hnd c n.
  - split; reflexivity.
  - inversion Hnd as [|? ? Hnotin Hnd']; subst.
    cbn [each]. unfold bind. cbn [onM ret outcome this fst].
    destruct (IH Hnd' (with_listeners (EventEmitter.on name l (_listeners c)) c) n)
      as [Hp Hl].
    cbv zeta in *. split; [exact Hp|]. rewrite Hl. cbn [with_listeners _listeners].
    rewrite listeners_on. cbn [map fst].
    destruct (in_dec string_dec n (map fst ps)) as [Hin|Hout];
      destruct (in_dec string_dec n (name :: map fst ps)) as [Hin'|Hout'];
      destruct (String.eqb_spec name n); subst;
      solve [reflexivity | exfalso; simpl in *; intuition congruence].
Qed.

Lemma each_off_listeners l (ps : list (string * Property)) :
  NoDup (map fst ps) ->
  forall c n,
    let c' := this (each (fun np => offM (fst np) l) ps c) in
    EventEmitter.listeners (_listeners c') n
    = if in_dec string_dec n (map fst ps)
      then EventEmitter.remove_first l (EventEmitter.listeners (_listeners c) n)
      else EventEmitter.listeners (_listeners c) n.
Proof.
  induction ps as [|[name d] ps IH]; intros Hnd c n.
  - reflexivity.
  - inversion Hnd as [|? ? Hnotin Hnd']; subst.
    cbn [each]. unfold bind. cbn [offM ret outcome this fst].
    pose proof (IH Hnd' (with_listeners (EventEmitter.off name l (_listeners c)) c) n)
      as Hl.
    cbv zeta in *. rewrite Hl. cbn [with_listeners _listeners].
    rewrite listeners_off. cbn [map fst].
    destruct (in_dec string_dec n (map fst ps)) as [Hin|Hout];
      destruct (in_dec string_dec n (name :: map fst ps)) as [Hin'|Hout'];
      destruct (String.eqb_spec name n); subst;
      solve [reflexivity | exfalso; simpl in *; intuition congruence].
Qed.

Lemma attach_result l c :
  NoDup (map fst (properties c)) ->
  outcome (attach l c) = Return l /\
  properties (this (attach l c)) = properties c /\
  forall n,
    EventEmitter.listeners (_listeners (this (attach l c))) n
    = if in_dec string_dec n (map fst (properties c))
      then EventEmitter.added l (EventEmitter.listeners (_listeners c) n)
      else EventEmitter.listeners (_listeners c) n.
Proof.
  intros Hnd. unfold attach, bind.
  assert (O : forall ps c0,
             outcome (each (fun np : string * Property => onM (fst np) l) ps c0)
             = Return tt).
  { induction ps as [|np ps IH]; intros c0; [reflexivity|].
    cbn [each]. unfold bind. cbn [onM ret outcome this]. apply IH. }
  rewrite O. cbn [ret outcome this]. split; [reflexivity|].
  split; [|intros n]; apply (each_on_listeners l (properties c) Hnd c).
  exact "".
Qed.

Lemma delivered_emit l c type nv name ov :
  delivered l (emit c type nv name ov) = subscriptions c type l.
Proof.
  unfold delivered, emit, subscriptions.
  induction (EventEmitter.listeners (_listeners c) type) as [|x ls IH]; simpl;
    [reflexivity|].
  destruct (Nat.eq_dec x l) as [->|Hne].
  - rewrite Nat.eqb_refl. simpl. rewrite IH. reflexivity.
  - apply Nat.eqb_neq in Hne. rewrite Hne. exact IH.
Qed.

Lemma count_occ_snoc (ls : list Listener) (l : Listener) :
  count_occ Nat.eq_dec (ls ++ [l]) l = S (count_occ Nat.eq_dec ls l).
Proof.
  rewrite count_occ_app. cbn [count_occ].
  destruct (Nat.eq_dec l l) as [_|Hne]; [apply Nat.add_1_r | contradiction Hne; reflexivity].
Qed.

Lemma remove_first_snoc (ls : list Listener) (l : Listener) :
  count_occ Nat.eq_dec ls l = 0 -> EventEmitter.remove_first l (ls ++ [l]) = ls.
Proof.
  induction ls as [|x ls IH]; simpl.
  - rewrite Nat.eqb_refl. reflexivity.
  - destruct (Nat.eq_dec x l) as [->|Hne]; [discriminate|].
    intros H. apply Nat.eqb_neq in Hne. rewrite Hne, IH by exact H. reflexivity.
Qed.

Lemma added_fresh (ls : list Listener) (l : Listener) :
  count_occ Nat.eq_dec ls l = 0 -> EventEmitter.added l ls = (ls ++ [l])%list.
Proof.
  intros H. unfold EventEmitter.added.
  replace (EventEmitter.subscribed l ls) with false; [reflexivity|].
  symmetry. unfold EventEmitter.subscribed.
  induction ls as [|x ls IH]; simpl; [reflexivity|].
  simpl in H. destruct (Nat.eq_dec x l) as [->|Hne]; [discriminate|].
  rewrite (IH H), orb_false_r. apply Nat.eqb_neq. intros E. apply Hne.
  symmetry. exact E.
Qed.

Lemma subscribed_count (ls : list Listener) (l : Listener) :
  count_occ Nat.eq_dec ls l <> 0 -> EventEmitter.subscribed l ls = true.
Proof.
  unfold EventEmitter.subscribed.
  induction ls as [|x ls IH]; simpl; [intros H; contradiction H; reflexivity|].
  destruct (Nat.eq_dec x l) as [->|Hne]; intros H.
  - rewrite Nat.eqb_refl. reflexivity.
  - rewrite (IH H). apply orb_true_r.
Qed.

Lemma count_occ_remove_first (ls : list Listener) (l : Listener) :
  count_occ Nat.eq_dec (EventEmitter.remove_first l ls) l
  = pred (count_occ Nat.eq_dec ls l).
Proof.
  induction ls as [|x ls IH]; simpl; [reflexivity|].
  destruct (Nat.eq_dec x l) as [->|Hne].
  - rewrite Nat.eqb_refl. reflexivity.
  - apply Nat.eqb_neq in Hne. rewrite Hne. simpl.
    apply Nat.eqb_neq in Hne. destruct (Nat.eq_dec x l); [contradiction|exact IH].
Qed.

Lemma with_listeners_same c : with_listeners (_listeners c) c = c.
Proof. destruct c. reflexivity. Qed.

(** Subscribing a listener again to events it is subscribed to changes
    nothing. *)
Lemma each_on_subscribed l (ps : list (string * Property)) c :
  (forall name, In name (map fst ps) ->
     EventEmitter.subscribed l (EventEmitter.listeners (_listeners c) name) = true) ->
  each (fun np => onM (fst np) l) ps c = MkResult (Return tt) c [].
Proof.
  induction ps as [|[name d] ps IH]; intros H; [reflexivity|].
  cbn [each]. unfold bind. cbn [onM ret outcome this calls fst].
  unfold EventEmitter.on. rewrite (H name) by (left; reflexivity).
  rewrite with_listeners_same, IH; [reflexivity|].
  intros n Hn. apply H. right. exact Hn.
Qed.

(** C8: on a data context to which the listener [l] is attached, a second
    [attach] of [l] is ignored: it returns [l], calls nothing and leaves the
    data context as it is; the change event of a declared property still
    calls [l] exactly once, and one [detach] leaves [l] subscribed to no
    declared property. The warning is the controller's: once it holds a
    listener, [_attachViewModel] reports the second attach to [console.warn]
    and touches neither the view model nor the listener. *)
Theorem second_attach_is_ignored :
  forall (c : DataContext) (l : Listener),
    distinct_names c ->
    attached l c ->
    attach l c = MkResult (Return l) c [] /\
    (forall name nv ov,
        In name (map fst (properties c)) ->
        subscriptions (this (attach l c)) name l = 1 /\
        delivered l (emit (this (attach l c)) name nv name ov) = 1) /\
    (forall name,
        In name (map fst (properties c)) ->
        subscriptions (this (detach l (this (attach l c)))) name l = 0) /\
    (forall (k : Controller.t) (closure : Listener),
        Controller.viewModel k = c ->
        Controller.modelListener k = Some l ->
        Controller._attachViewModel closure k
        = (Return tt,
           Controller.Mk c (Some l)
             (Controller.warnings k ++ [Controller.already_attached])%list)).
Proof.
  intros c l Hnd Hatt.
  assert (E : attach l c = MkResult (Return l) c []).
  { unfold attach, bind. rewrite each_on_subscribed; [reflexivity|].
    intros name Hin. apply subscribed_count. specialize (Hatt name Hin).
    unfold subscriptions in Hatt. rewrite Hatt. discriminate. }
  rewrite E. cbn [this]. split; [reflexivity|]. split; [|split].
  - intros name nv ov Hin. rewrite delivered_emit. split; exact (Hatt name Hin).
  - intros name Hin. unfold subscriptions, detach.
    rewrite (each_off_listeners l (properties c) Hnd c name).
    destruct (in_dec string_dec name (map fst (properties c))); [|contradiction].
    rewrite count_occ_remove_first. specialize (Hatt name Hin).
    unfold subscriptions in Hatt. rewrite Hatt. reflexivity.
  - intros k closure Hvm Hl. unfold Controller._attachViewModel.
    rewrite Hl, Hvm. reflexivity.
Qed.

(** The counter with listener 9 attached to it, as the view model of
    [Samples.attached_controller]. *)
Lemma second_attach_is_ignored_witness :
  let c := Controller.viewModel Samples.attached_controller in
  attach 9 c = MkResult (Return 9) c [] /\
  subscriptions (this (attach 9 c)) "count" 9 = 1 /\
  subscriptions (this (detach 9 (this (attach 9 c)))) "count" 9 = 0 /\
  Controller._attachViewModel 10 Samples.attached_controller
  = (Return tt, Controller.Mk c (Some 9) [Controller.already_attached]).
Proof.
  assert (Hnd : distinct_names (Controller.viewModel Samples.attached_controller)).
  { unfold distinct_names. simpl. repeat constructor; simpl; intuition discriminate. }
  assert (Hatt : attached 9 (Controller.viewModel Samples.attached_controller)).
  { intros name [<-|[<-|[]]]; reflexivity. }
  destruct (second_attach_is_ignored
              (Controller.viewModel Samples.attached_controller) 9 Hnd Hatt)
    as [A [B [C D]]].
  split; [exact A|]. split; [|split].
  - exact (proj1 (B "count" VUndefined VUndefined (or_introl eq_refl))).
  - exact (C "count" (or_introl eq_refl)).
  - exact (D Samples.attached_controller 10 eq_refl eq_refl).
Defined.


(** * Further properties *)

(** ** Private variables *)

Lemma lookup_remove_key {A} (k k' : string) (l : list (string * A)) :
  lookup k' (remove_key k l) = if String.eqb k k' then None else lookup k' l.
Proof.
  induction l as [|[k0 a0] l IH]; simpl.
  - destruct (String.eqb k k'); reflexivity.
  - destruct (String.eqb_spec k0 k) as [->|Hne]; simpl.
    + rewrite IH. destruct (String.eqb k k'); reflexivity.
    + rewrite IH. destruct (String.eqb_spec k0 k') as [->|Hne'].
      * destruct (String.eqb_spec k k') as [->|_]; [contradiction Hne|]; reflexivity.
      * reflexivity.
Qed.

Lemma assign_assign {A} (k : string) (a b : A) (l : list (string * A)) :
  assign k b (assign k a l) = assign k b l.
Proof.
  induction l as [|[k0 a0] l IH]; simpl.
  - rewrite String.eqb_refl. reflexivity.
  - destruct (String.eqb k0 k) eqn:E; simpl; rewrite E; [reflexivity|].
    rewrite IH. reflexivity.
Qed.

Lemma remove_key_twice {A} (k : string) (l : list (string * A)) :
  remove_key k (remove_key k l) = remove_key k l.
Proof.
  induction l as [|[k0 a0] l IH]; simpl; [reflexivity|].
  destruct (String.eqb k0 k) eqn:E; simpl; [exact IH|].
  rewrite E, IH. reflexivity.
Qed.

Lemma ivar_set_ivar k v c k' :
  k <> "_validating" ->
  ivar (set_ivar k v c) k' = if String.eqb k k' then v else ivar c k'.
Proof.
  intros H. unfold ivar, set_ivar.
  destruct (String.eqb_spec k "_validating") as [E|_]; [contradiction|].
  destruct (String.eqb_spec k' "_validating") as [->|_].
  - destruct (String.eqb_spec k "_validating"); [contradiction | reflexivity].
  - simpl. rewrite lookup_remove_key, lookup_assign.
    destruct (String.eqb k k'); reflexivity.
Qed.

Lemma set_ivar_twice k v c : set_ivar k v (set_ivar k v c) = set_ivar k v c.
Proof.
  unfold set_ivar. destruct (String.eqb k "_validating"); [reflexivity|].
  unfold with_components, with_fields. simpl.
  rewrite remove_key_twice, assign_assign. reflexivity.
Qed.

Lemma set_ivar_private k v c :
  k <> "_validating" ->
  set_ivar k v c
  = with_components (remove_key k (components c))
      (with_fields (MkFields (assign k v (ivars (fields c))) (_errors (fields c))) c).
Proof.
  intros H. unfold set_ivar.
  destruct (String.eqb_spec k "_validating"); [contradiction | reflexivity].
Qed.

Lemma property_set_ivar k v c n : property (set_ivar k v c) n = property c n.
Proof. unfold set_ivar. destruct (String.eqb k "_validating"); reflexivity. Qed.

(** The private variable of a declared property of a data context whose
    private variables are private is not the flag. *)
Lemma private_slot c name d :
  private_slots c = true -> property c name = Some d ->
  "_" ++ name <> "_validating".
Proof.
  intros H Hp E. injection E as ->.
  assert (Hin : In ("validating", d) (properties c)).
  { clear - Hp. unfold property in Hp. induction (properties c) as [|[k a] l IH];
      [discriminate|]. simpl in Hp. destruct (String.eqb_spec k "validating") as [->|_].
    - injection Hp as ->. left. reflexivity.
    - right. apply IH, Hp. }
  destruct (private_names c _ d H Hin) as [H1 _]. apply H1. reflexivity.
Qed.

Lemma underscore_inj (n n' : string) : "_" ++ n = "_" ++ n' -> n = n'.
Proof. intros H. injection H as H. exact H. Qed.

Lemma strict_eq_refl v : v <> VNaN -> strict_eq v v = true.
Proof.
  intros H. unfold strict_eq.
  destruct (JsValue_eq_dec v v) as [_|Hne]; [|contradiction Hne; reflexivity].
  destruct v; try reflexivity. contradiction H. reflexivity.
Qed.

Lemma strict_eq_undefined v : v <> VUndefined -> strict_eq VUndefined v = false.
Proof.
  intros H. unfold strict_eq. destruct (JsValue_eq_dec VUndefined v) as [E|_];
    [|reflexivity]. contradiction H. symmetry. exact E.
Qed.

(** The generated setter of a property without getter stores the value,
    whatever the notification does. *)
Lemma setProp_default_this fuel name v c d :
  property c name = Some d -> get d = None ->
  this (setProp fuel name v c) = set_ivar ("_" ++ name) v c.
Proof.
  intros Hp Hg. unfold setProp. rewrite Hp, Hg. cbv zeta.
  apply (keeps_fireIfChanged (fun x => x)). intros. apply firePropertyChange_this.
Qed.

(** X1: on a data context whose private variables are private, assigning a
    property with generated accessors the value it was just assigned does
    nothing, unless the value is NaN: the second assignment returns, calls
    no listener and leaves the data context as it is. NaN is not equal to
    itself: assigning it again notifies again. *)
Theorem assigning_same_value_again_is_silent :
  forall fuel fuel' c name d v,
    private_slots c = true ->
    property c name = Some d ->
    get d = None ->
    (v <> VNaN ->
     setProp fuel' name v (this (setProp fuel name v c))
     = MkResult (Return tt) (this (setProp fuel name v c)) []) /\
    (v = VNaN ->
     setProp fuel' name v (this (setProp fuel name v c))
     = firePropertyChange fuel' name VNaN VNaN (this (setProp fuel name v c))).
Proof.
  intros fuel fuel' c name d v Hprivate Hp Hg.
  pose proof (private_slot c name d Hprivate Hp) as Hk.
  rewrite (setProp_default_this fuel name v c d Hp Hg).
  assert (Hp' : property (set_ivar ("_" ++ name) v c) name = Some d)
    by (rewrite property_set_ivar; exact Hp).
  split; intros Hv.
  - unfold setProp at 1.
    rewrite Hp', Hg. cbv zeta. rewrite ivar_set_ivar, String.eqb_refl by exact Hk.
    unfold fireIfChanged. rewrite (strict_eq_refl v Hv). cbn [negb].
    rewrite set_ivar_twice. reflexivity.
  - subst v. unfold setProp at 1.
    rewrite Hp', Hg. cbv zeta. rewrite ivar_set_ivar, String.eqb_refl by exact Hk.
    unfold fireIfChanged. cbn [strict_eq negb].
    rewrite set_ivar_twice. reflexivity.
Qed.

(** [point.A = 1] twice: the first assignment calls the listener, the second
    does not; [point.A = NaN] twice calls it twice. *)
Lemma assigning_same_value_again_is_silent_witness :
  calls (setProp 1 "A" (VNum 1) Samples.point) = [MkCall 7 (VNum 1) "A" VUndefined] /\
  calls (setProp 1 "A" (VNum 1) (this (setProp 1 "A" (VNum 1) Samples.point))) = [] /\
  calls (setProp 1 "A" VNaN (this (setProp 1 "A" VNaN Samples.point)))
  = [MkCall 7 VNaN "A" VNaN].
Proof.
  split; [reflexivity|]. split.
  - rewrite (proj1 (assigning_same_value_again_is_silent 1 1 Samples.point "A"
                      (plainProperty (VNum 0) None) (VNum 1) eq_refl eq_refl eq_refl)).
    + reflexivity.
    + discriminate.
  - rewrite (proj2 (assigning_same_value_again_is_silent 1 1 Samples.point "A"
                      (plainProperty (VNum 0) None) VNaN eq_refl eq_refl eq_refl)
               eq_refl).
    reflexivity.
Defined.

(** ** Dependency cycles *)

Lemma each_throws_at {A} (f : A -> M unit) (E : Exn) (l : list A) (q : A) c :
  (forall x, keeps (fun s => s) (f x)) ->
  (forall x e, outcome (f x c) = Throw e -> e = E) ->
  In q l -> outcome (f q c) = Throw E ->
  outcome (each f l c) = Throw E.
Proof.
  intros Hkeep Honly. induction l as [|x l IH]; intros Hin Hq; [destruct Hin|].
  cbn [each]. unfold bind. destruct (outcome (f x c)) as [u|e] eqn:Ex.
  - cbn [outcome]. rewrite (Hkeep x c). apply IH; [|exact Hq].
    destruct Hin as [<-|Hin]; [|exact Hin]. rewrite Hq in Ex. discriminate.
  - cbn [outcome]. rewrite (Honly x e Ex). reflexivity.
Qed.

Lemma each_throw_inv {A} (f : A -> M unit) (l : list A) c e :
  (forall x, keeps (fun s => s) (f x)) ->
  outcome (each f l c) = Throw e -> exists x, In x l /\ outcome (f x c) = Throw e.
Proof.
  intros Hkeep. induction l as [|x l IH]; [discriminate|].
  cbn [each]. unfold bind. destruct (outcome (f x c)) as [u|e'] eqn:Ex.
  - cbn [outcome]. rewrite (Hkeep x c). intros H. destruct (IH H) as [y [Hy Ey]].
    exists y. split; [right; exact Hy | exact Ey].
  - cbn [outcome]. intros H. injection H as <-. exists x. split; [left; reflexivity|exact Ex].
Qed.

Lemma keeps_refire fuel :
  forall p : string,
    keeps (fun s => s)
      (fun self =>
         match property self p with
         | Some _ =>
             fireIfChanged (firePropertyChange fuel) p (getProp self p) VUndefined self
         | None => ret tt self
         end).
Proof.
  intros p c. cbv beta. destruct (property c p); [|reflexivity].
  apply (keeps_fireIfChanged (fun x => x)). intros. apply firePropertyChange_this.
Qed.

(** With listeners that only observe, the one exception
    [firePropertyChange] ends in is the overflow of the call stack. *)
Lemma firePropertyChange_only_overflows fuel :
  forall name nv ov c e,
    outcome (firePropertyChange fuel name nv ov c) = Throw e -> e = stack_overflow.
Proof.
  induction fuel as [|fuel IH]; intros name nv ov c e.
  - simpl. destruct (negb (_validating c)); simpl; [|discriminate].
    intros H. injection H as <-. reflexivity.
  - rewrite firePropertyChange_S. destruct (negb (_validating c)); [|discriminate].
    unfold bind. cbn [emitM outcome this].
    destruct (property c name) as [d|]; [|discriminate].
    destruct (dependent d) as [deps|]; [|discriminate].
    intros H. apply each_throw_inv in H; [|apply (keeps_refire fuel)].
    destruct H as [p [_ Hp]]. cbv beta in Hp.
    destruct (property c p); [|discriminate]. unfold fireIfChanged in Hp.
    destruct (negb (strict_eq VUndefined (getProp c p))); [|discriminate].
    exact (IH _ _ _ _ _ Hp).
Qed.

(** X2: when the dependents form a cycle (a set of declared properties each
    of which has a dependent in the set with a current value that is not
    undefined), outside a validating pass [firePropertyChange] on any of
    them does not return: whatever the bound on the nesting, it ends in the
    overflow of the call stack. *)
Theorem dependency_cycle_never_returns :
  forall c (names : string -> Prop),
    _validating c = false ->
    refire_closed c names ->
    forall fuel p nv ov,
      names p ->
      outcome (firePropertyChange fuel p nv ov c) = Throw stack_overflow.
Proof.
  intros c names Hv Hclosed. induction fuel as [|fuel IH]; intros p nv ov Hp.
  - simpl. rewrite Hv. reflexivity.
  - rewrite firePropertyChange_S, Hv. cbn [negb]. unfold bind. cbn [emitM outcome this].
    destruct (Hclosed p Hp) as [d [deps [q [Hd [Hdeps [Hin [Hq [Hdecl Hval]]]]]]]].
    rewrite Hd, Hdeps.
    apply (each_throws_at _ stack_overflow deps q c).
    + apply (keeps_refire fuel).
    + intros x e. cbv beta. destruct (property c x); [|discriminate].
      unfold fireIfChanged. destruct (negb (strict_eq VUndefined (getProp c x)));
        [|discriminate]. apply firePropertyChange_only_overflows.
    + exact Hin.
    + cbv beta. destruct (property c q); [|contradiction Hdecl; reflexivity].
      unfold fireIfChanged. rewrite (strict_eq_undefined _ Hval). cbn [negb].
      apply IH. exact Hq.
Qed.

(** [Samples.mutual]: [first] and [full] name each other. *)
Lemma dependency_cycle_never_returns_witness :
  outcome (firePropertyChange 1000 "first" (VStr "C") (VStr "A") Samples.mutual)
  = Throw stack_overflow.
Proof.
  apply (dependency_cycle_never_returns Samples.mutual
           (fun p => p = "first" \/ p = "full") eq_refl).
  - intros p [E | E]; subst p.
    + exists (plainProperty (VStr "A") (Some ["full"])), ["full"], "full".
      split; [reflexivity|]. split; [reflexivity|]. split; [left; reflexivity|].
      split; [right; reflexivity|]. split; discriminate.
    + exists (plainProperty (VStr "A B") (Some ["first"])), ["first"], "first".
      split; [reflexivity|]. split; [reflexivity|]. split; [left; reflexivity|].
      split; [left; reflexivity|]. split; discriminate.
  - left. reflexivity.
Defined.

(** ** Bulk assignment over generated accessors *)

Lemma each_ext {A} (f g : A -> M unit) (l : list A) c :
  (forall x c', f x c' = g x c') -> each f l c = each g l c.
Proof.
  intros H. revert c. induction l as [|x l IH]; intros c; [reflexivity|].
  cbn [each]. unfold bind. rewrite H. destruct (outcome (g x c)); [|reflexivity].
  rewrite IH. reflexivity.
Qed.

Lemma reset_as_choice fuel newData c :
  reset fuel newData c
  = each (assign_chosen fuel (reset_choice newData)) (properties c) c.
Proof.
  unfold reset. apply each_ext. intros [name d] c'.
  unfold assign_chosen, reset_choice, data_of. cbn [fst snd].
  destruct (writable d); reflexivity.
Qed.


Lemma lookup_distinct {A} (l : list (string * A)) (k : string) (a : A) :
  NoDup (map fst l) -> In (k, a) l -> lookup k l = Some a.
Proof.
  induction l as [|[k0 a0] l IH]; intros Hnd Hin; [destruct Hin|].
  inversion Hnd as [|? ? Hnotin Hnd']; subst. simpl.
  destruct Hin as [E|Hin].
  - injection E as -> ->. rewrite String.eqb_refl. reflexivity.
  - destruct (String.eqb_spec k0 k) as [->|_]; [|apply IH; assumption].
    contradiction Hnotin. apply (in_map fst) in Hin. exact Hin.
Qed.

(** What a bulk assignment that returns has done, on properties with
    generated accessors and distinct names. *)
Lemma each_assign_chosen fuel choose :
  forall (ps : list (string * Property)) c0,
    NoDup (map fst ps) ->
    (forall n d, In (n, d) ps ->
       property c0 n = Some d /\ get d = None /\ n <> "validating") ->
    outcome (each (assign_chosen fuel choose) ps c0) = Return tt ->
    let c' := this (each (assign_chosen fuel choose) ps c0) in
    shell c' = shell c0 /\
    _errors (fields c') = _errors (fields c0) /\
    (forall n d, In (n, d) ps ->
       ivar c' ("_" ++ n)
       = match choose n d with Some v => v | None => ivar c0 ("_" ++ n) end) /\
    (forall n d, In (n, d) ps -> choose n d <> None ->
       lookup ("_" ++ n) (components c') = None) /\
    (forall k, (forall n, In n (map fst ps) -> k <> "_" ++ n) -> ivar c' k = ivar c0 k) /\
    (forall k, lookup k (components c0) = None -> lookup k (components c') = None).
Proof.
  induction ps as [|[n d] ps IH]; intros c0 Hnd Hdecl Hret.
  - cbn. repeat split; intros; try reflexivity; try contradiction; assumption.
  - inversion Hnd as [|? ? Hnotin Hnd']; subst.
    cbn [each] in *. unfold bind in *.
    destruct (outcome (assign_chosen fuel choose (n, d) c0)) as [u|e] eqn:Ehead;
      [|discriminate].
    cbn [outcome this] in *.
    set (c1 := this (assign_chosen fuel choose (n, d) c0)) in *.
    destruct (Hdecl n d (or_introl eq_refl)) as [Hp [Hg Hnv]].
    assert (Hslot : "_" ++ n <> "_validating").
    { intros E. apply Hnv. injection E as E. exact E. }
    assert (Hc1 : c1 = match choose n d with
                       | Some v => set_ivar ("_" ++ n) v c0
                       | None => c0
                       end).
    { unfold c1, assign_chosen. cbn [fst snd]. destruct (choose n d) as [v|];
        [apply (setProp_default_this fuel n v c0 d Hp Hg) | reflexivity]. }
    assert (Hprops : properties c1 = properties c0).
    { rewrite Hc1. destruct (choose n d); [|reflexivity].
      rewrite set_ivar_private by exact Hslot. reflexivity. }
    assert (Hdecl1 : forall n' d', In (n', d') ps ->
                       property c1 n' = Some d' /\ get d' = None /\
                       n' <> "validating").
    { intros n' d' Hin. unfold property. rewrite Hprops.
      apply Hdecl. right. exact Hin. }
    destruct (IH c1 Hnd' Hdecl1 Hret) as [Hs [He [Hi [Hc [Ho Hk]]]]].
    cbv zeta in *. repeat split.
    + rewrite Hs, Hc1. destruct (choose n d); [|reflexivity].
      apply shell_set_ivar. exact Hslot.
    + rewrite He, Hc1. destruct (choose n d); [|reflexivity].
      rewrite set_ivar_private by exact Hslot. reflexivity.
    + intros n' d' [E|Hin].
      * injection E as <- <-. rewrite Ho.
        -- rewrite Hc1. destruct (choose n d) as [v|]; [|reflexivity].
           rewrite ivar_set_ivar, String.eqb_refl by exact Hslot. reflexivity.
        -- intros m Hm E. apply underscore_inj in E. subst m. contradiction.
      * rewrite (Hi n' d' Hin). destruct (choose n' d'); [reflexivity|].
        rewrite Hc1. destruct (choose n d) as [v|]; [|reflexivity].
        rewrite ivar_set_ivar by exact Hslot.
        destruct (String.eqb_spec ("_" ++ n) ("_" ++ n'))
          as [E|_]; [|reflexivity].
        apply underscore_inj in E. subst n'. contradiction Hnotin.
        apply (in_map fst) in Hin. exact Hin.
    + intros n' d' [E|Hin] Hsome.
      * injection E as <- <-. apply Hk. rewrite Hc1.
        destruct (choose n d) as [v|]; [|contradiction Hsome; reflexivity].
        rewrite set_ivar_private by exact Hslot.
        cbn. rewrite lookup_remove_key, String.eqb_refl. reflexivity.
      * exact (Hc n' d' Hin Hsome).
    + intros k Hfree. rewrite Ho.
      * rewrite Hc1. destruct (choose n d) as [v|]; [|reflexivity].
        rewrite ivar_set_ivar by exact Hslot.
        destruct (String.eqb_spec ("_" ++ n) k) as [E|_];
          [|reflexivity].
        exfalso. apply (Hfree n); [left; reflexivity | symmetry; exact E].
      * intros m Hm. apply Hfree. right. exact Hm.
    + intros k Hnone. apply Hk. rewrite Hc1.
      destruct (choose n d) as [v|]; [|exact Hnone].
      rewrite set_ivar_private by exact Hslot.
      cbn. rewrite lookup_remove_key. destruct (String.eqb _ k);
        [reflexivity | exact Hnone].
Qed.

Lemma getProp_default c name d :
  property c name = Some d -> get d = None ->
  getProp c name
  = if isUndefined (ivar c ("_" ++ name)) then default d else ivar c ("_" ++ name).
Proof. intros Hp Hg. unfold getProp. rewrite Hp, Hg. reflexivity. Qed.

Lemma js_or_defaulted x dflt :
  (if isUndefined (js_or x dflt) then dflt else js_or x dflt) = js_or x dflt.
Proof.
  unfold js_or. destruct (truthy x) eqn:E.
  - destruct x; try reflexivity; discriminate.
  - destruct (isUndefined dflt); reflexivity.
Qed.

Lemma default_accessors_writable c name d :
  default_accessors c -> In (name, d) (properties c) -> writable d = true.
Proof. intros H Hin. unfold writable. rewrite (H name d Hin). reflexivity. Qed.

Lemma shell_properties c c' : shell c' = shell c -> properties c' = properties c.
Proof. unfold shell. intros H. injection H as _ _ H. exact H. Qed.

(** A property without dependents: its assignment returns as soon as one
    nested call is allowed. *)
Lemma setProp_returns fuel name v c d :
  property c name = Some d -> get d = None -> dependent d = None ->
  outcome (setProp (S fuel) name v c) = Return tt.
Proof.
  intros Hp Hg Hdep. unfold setProp. rewrite Hp, Hg. cbv zeta. unfold fireIfChanged.
  destruct (negb (strict_eq (ivar c ("_" ++ name)) v)); [|reflexivity].
  rewrite firePropertyChange_S.
  destruct (negb (_validating (set_ivar ("_" ++ name) v c))); [|reflexivity].
  unfold bind. cbn [emitM outcome this].
  assert (Hp' : property (set_ivar ("_" ++ name) v c) name = Some d)
    by (rewrite property_set_ivar; exact Hp).
  rewrite Hp', Hdep. reflexivity.
Qed.

Lemma keeps_setProp_properties fuel name v : keeps properties (setProp fuel name v).
Proof.
  intro c. unfold setProp.
  assert (S : forall k, properties (set_ivar k v c) = properties c).
  { intros k. unfold set_ivar. destruct (String.eqb k "_validating"); reflexivity. }
  destruct (property c name) as [d|]; [|apply S].
  destruct (get d) as [g|], (set d) as [s|].
  - destruct (s v (fields c)) as [f' [u|e]].
    + rewrite keeps_fireIfChanged; [reflexivity | intros; apply keeps_fire].
    + reflexivity.
  - reflexivity.
  - rewrite keeps_fireIfChanged; [apply S | intros; apply keeps_fire].
  - rewrite keeps_fireIfChanged; [apply S | intros; apply keeps_fire].
Qed.

Lemma each_assign_returns fuel choose :
  forall (ps : list (string * Property)) c0,
    (forall n d, In (n, d) ps ->
       property c0 n = Some d /\ get d = None /\ dependent d = None) ->
    outcome (each (assign_chosen (S fuel) choose) ps c0) = Return tt.
Proof.
  induction ps as [|[n d] ps IH]; intros c0 Hdecl; [reflexivity|].
  cbn [each]. unfold bind.
  destruct (Hdecl n d (or_introl eq_refl)) as [Hp [Hg Hdep]].
  assert (Hhead : outcome (assign_chosen (S fuel) choose (n, d) c0) = Return tt).
  { unfold assign_chosen. cbn [fst snd]. destruct (choose n d) as [v|];
      [apply (setProp_returns fuel n v c0 d Hp Hg Hdep) | reflexivity]. }
  rewrite Hhead. cbn [outcome]. apply IH. intros n' d' Hin.
  assert (Hprops : properties (this (assign_chosen (S fuel) choose (n, d) c0))
                   = properties c0).
  { unfold assign_chosen. cbn [fst snd]. destruct (choose n d) as [v|]; [|reflexivity].
    apply keeps_setProp_properties. }
  unfold property. rewrite Hprops. apply Hdecl. right. exact Hin.
Qed.

Lemma declared_default c :
  default_accessors c -> distinct_names c -> private_slots c = true ->
  forall n d, In (n, d) (properties c) ->
    property c n = Some d /\ get d = None /\ n <> "validating".
Proof.
  intros Hacc Hnd Hprivate n d Hin. split; [|split; [exact (Hacc n d Hin)|]].
  - apply lookup_distinct; assumption.
  - exact (proj1 (private_names c n d Hprivate Hin)).
Qed.

(** What a property reads after a [reset] that returned. *)
Lemma reset_reads newData c fuel :
  default_accessors c ->
  distinct_names c ->
  private_slots c = true ->
  outcome (reset fuel newData c) = Return tt ->
  forall name d,
    In (name, d) (properties c) ->
    getProp (this (reset fuel newData c)) name
    = js_or (data_get (data_of newData) name) (default d).
Proof.
  intros Hacc Hnd Hprivate Hret name d Hin. rewrite reset_as_choice in *.
  destruct (each_assign_chosen fuel (reset_choice newData) (properties c) c Hnd
              (declared_default c Hacc Hnd Hprivate) Hret) as [Hs [_ [Hi _]]].
  cbv zeta in *.
  set (c' := this (each (assign_chosen fuel (reset_choice newData)) (properties c) c))
    in *.
  assert (Hp' : property c' name = Some d).
  { unfold property. rewrite (shell_properties _ _ Hs).
    apply lookup_distinct; assumption. }
  rewrite (getProp_default c' name d Hp' (Hacc name d Hin)), (Hi name d Hin).
  unfold reset_choice. rewrite (default_accessors_writable c name d Hacc Hin).
  apply js_or_defaulted.
Qed.

(** X3: on a data context whose properties all have the generated
    accessors and private variables that are private, a [reset(newData)]
    that returns leaves every declared property reading
    [newData[name] || default]; and it does return when no property has
    dependents. *)
Theorem reset_assigns_data_or_default :
  forall newData c,
    default_accessors c ->
    distinct_names c ->
    private_slots c = true ->
    (forall fuel,
        outcome (reset fuel newData c) = Return tt ->
        forall name d,
          In (name, d) (properties c) ->
          getProp (this (reset fuel newData c)) name
          = js_or (data_get (data_of newData) name) (default d)) /\
    ((forall name d, In (name, d) (properties c) -> dependent d = None) ->
     forall fuel, outcome (reset (S fuel) newData c) = Return tt).
Proof.
  intros newData c Hacc Hnd Hprivate. split.
  - intros fuel Hret. exact (reset_reads newData c fuel Hacc Hnd Hprivate Hret).
  - intros Hdep fuel. rewrite reset_as_choice. apply each_assign_returns.
    intros n d Hin.
    destruct (declared_default c Hacc Hnd Hprivate n d Hin) as [Hp [Hg _]].
    split; [exact Hp|]. split; [exact Hg | exact (Hdep n d Hin)].
Qed.

(** [Samples.point], reset with [{A: 5}]: [A] reads 5, [B] its default 2. *)
Lemma reset_assigns_data_or_default_witness :
  outcome (reset 1 (Some [("A", VNum 5)]) Samples.point) = Return tt /\
  getProp (this (reset 1 (Some [("A", VNum 5)]) Samples.point)) "A" = VNum 5 /\
  getProp (this (reset 1 (Some [("A", VNum 5)]) Samples.point)) "B" = VNum 2.
Proof.
  assert (Hacc : default_accessors Samples.point).
  { intros n d [E|[E|[]]]; injection E as _ <-; reflexivity. }
  assert (Hnd : distinct_names Samples.point).
  { unfold distinct_names. simpl. repeat constructor; simpl; intuition discriminate. }
  destruct (reset_assigns_data_or_default (Some [("A", VNum 5)]) Samples.point Hacc Hnd
              eq_refl) as [Hval Hret].
  assert (R : outcome (reset 1 (Some [("A", VNum 5)]) Samples.point) = Return tt).
  { apply Hret. intros n d [E|[E|[]]]; injection E as _ <-; reflexivity. }
  split; [exact R|]. split.
  - exact (Hval 1 R "A" (plainProperty (VNum 0) None) (or_introl eq_refl)).
  - exact (Hval 1 R "B" (plainProperty (VNum 2) None) (or_intror (or_introl eq_refl))).
Defined.



(** ** Components after a reset *)

Lemma every_throws {A} (f : A -> Outcome bool) (E : Exn) (l : list A) :
  (forall x, In x l -> f x = Return true \/ f x = Throw E) ->
  (exists x, In x l /\ f x = Throw E) ->
  every f l = Throw E.
Proof.
  induction l as [|x l IH]; intros Hall [y [Hy Ey]]; [destruct Hy|].
  simpl. destruct (Hall x (or_introl eq_refl)) as [Hx|Hx]; rewrite Hx; [|reflexivity].
  apply IH.
  - intros z Hz. apply Hall. right. exact Hz.
  - destruct Hy as [<-|Hy]; [rewrite Hx in Ey; discriminate|].
    exists y. split; assumption.
Qed.

(** X5: [reset] assigns the component properties too. On a data context
    whose properties all have the generated accessors and private variables
    that are private, after a [reset] that gave no component property an
    object and found neither data nor a default for one of them (so that it
    now holds undefined or null), [isValid()] throws a TypeError at
    [this[name].isValid], unless the context's own collector already holds
    errors, in which case it returns false. *)
Theorem reset_then_isValid_throws :
  forall newData c fuel name d,
    default_accessors c ->
    distinct_names c ->
    private_slots c = true ->
    (forall n' d', In (n', d') (properties c) -> component d' <> None ->
       match js_or (data_get (data_of newData) n') (default d') with
       | VObj _ | VDeferred _ => False
       | _ => True
       end) ->
    outcome (reset fuel newData c) = Return tt ->
    In (name, d) (properties c) ->
    component d <> None ->
    isNullish (js_or (data_get (data_of newData) name) (default d)) = true ->
    (Errors.isValid (_errors (fields c)) None = true ->
     exists msg, isValid (this (reset fuel newData c)) None = Throw (TypeError msg)) /\
    (Errors.isValid (_errors (fields c)) None = false ->
     isValid (this (reset fuel newData c)) None = Return false).
Proof.
  intros newData c fuel name d Hacc Hnd Hprivate _ Hret Hin Hcomp Hnull.
  pose proof (reset_reads newData c fuel Hacc Hnd Hprivate Hret) as Hval.
  rewrite reset_as_choice in *.
  destruct (each_assign_chosen fuel (reset_choice newData) (properties c) c Hnd
              (declared_default c Hacc Hnd Hprivate) Hret) as [Hs [He [_ [Hc _]]]].
  cbv zeta in *.
  set (c' := this (each (assign_chosen fuel (reset_choice newData)) (properties c) c))
    in *.
  rewrite isValid_unfold, He, (shell_properties _ _ Hs).
  destruct (Errors.isValid (_errors (fields c)) None); cbn [andb is_null];
    (split; intros Hown; try discriminate Hown); [|reflexivity].
  exists ("Cannot read property 'isValid'").
  change (TypeError "Cannot read property 'isValid'") with (cannot_read "isValid").
  assert (Hrecv : forall n' d', In (n', d') (properties c) ->
            receiver c' n' d' = classify (getProp c' n')).
  { intros n' d' Hin'. unfold receiver, receiver_in. rewrite (Hacc n' d' Hin').
    rewrite (Hc n' d' Hin'); [reflexivity|].
    unfold reset_choice. rewrite (default_accessors_writable c n' d' Hacc Hin').
    discriminate. }
  apply every_throws.
  - intros [n' d'] Hin'. cbn [fst snd]. destruct (component d'); [|left; reflexivity].
    rewrite (Hrecv n' d' Hin'). unfold classify.
    destruct (isNullish (getProp c' n')); [right | left]; reflexivity.
  - exists (name, d). split; [exact Hin|]. cbn [fst snd].
    destruct (component d); [|contradiction Hcomp; reflexivity].
    rewrite (Hrecv name d Hin), (Hval name d Hin). unfold classify.
    rewrite Hnull. reflexivity.
Qed.

(** [Samples.form] without errors is valid; after [reset({})] its
    components are gone and [isValid()] throws. *)
Lemma reset_then_isValid_throws_witness :
  let form := Samples.form Errors.empty Errors.empty Errors.empty in
  isValid form None = Return true /\
  exists msg, isValid (this (reset 1 (Some []) form)) None = Throw (TypeError msg).
Proof.
  intros form. split; [reflexivity|].
  assert (Hacc : default_accessors form).
  { intros n d [E|[E|[]]]; injection E as _ <-; reflexivity. }
  assert (Hnd : distinct_names form).
  { unfold distinct_names. simpl. repeat constructor; simpl; intuition discriminate. }
  assert (Hval : forall n' d', In (n', d') (properties form) -> component d' <> None ->
            match js_or (data_get (data_of (Some [])) n') (default d') with
            | VObj _ | VDeferred _ => False
            | _ => True
            end).
  { intros n d [E|[E|[]]] _; injection E as _ <-; exact I. }
  exact (proj1 (reset_then_isValid_throws (Some []) form 1 "left"
                  (componentProperty "Leaf") Hacc Hnd eq_refl Hval eq_refl
                  (or_introl eq_refl) ltac:(discriminate) eq_refl) eq_refl).
Defined.

(** ** Attach and detach *)

(** X6: on a data context with distinct property names, when [attach(l)]
    of a listener that was not subscribed before returns (the emitter
    refuses a listener beyond its limit), [detach(l)] after it gives back,
    for every event, the listeners that were there, in their order: every
    change event calls exactly whom it called before. *)
Theorem detach_undoes_attach :
  forall c l,
    distinct_names c ->
    (forall name, subscriptions c name l = 0) ->
    outcome (attach l c) = Return l ->
    forall name,
      EventEmitter.listeners (_listeners (this (detach l (this (attach l c))))) name
      = EventEmitter.listeners (_listeners c) name /\
      forall nv ov,
        emit (this (detach l (this (attach l c)))) name nv name ov
        = emit c name nv name ov.
Proof.
  intros c l Hnd Hfresh _ name. destruct (attach_result l c Hnd) as [_ [Hp Hl]].
  assert (E : EventEmitter.listeners
                (_listeners (this (detach l (this (attach l c))))) name
              = EventEmitter.listeners (_listeners c) name).
  { unfold detach.
    assert (Hnd' : NoDup (map fst (properties (this (attach l c)))))
      by (rewrite Hp; exact Hnd).
    rewrite (each_off_listeners l _ Hnd' (this (attach l c)) name), Hl, Hp.
    destruct (in_dec string_dec name (map fst (properties c))); [|reflexivity].
    rewrite (added_fresh _ l (Hfresh name)).
    apply remove_first_snoc. exact (Hfresh name). }
  split; [exact E|]. intros nv ov. unfold emit. rewrite E. reflexivity.
Qed.

(** [Samples.point], where listener 7 listens to [A]: listener 9 comes and
    goes. *)
Lemma detach_undoes_attach_witness :
  EventEmitter.listeners (_listeners (this (attach 9 Samples.point))) "A" = [7; 9] /\
  EventEmitter.listeners
    (_listeners (this (detach 9 (this (attach 9 Samples.point))))) "A" = [7].
Proof.
  assert (Hnd : distinct_names Samples.point).
  { unfold distinct_names. simpl. repeat constructor; simpl; intuition discriminate. }
  assert (Hfresh : forall name, subscriptions Samples.point name 9 = 0).
  { intros name. unfold subscriptions, EventEmitter.listeners, Samples.point.
    cbn [_listeners lookup]. destruct (String.eqb "A" name); reflexivity. }
  split; [reflexivity|].
  exact (proj1 (detach_undoes_attach Samples.point 9 Hnd Hfresh eq_refl "A")).
Defined.

(** ** Validation without custom accessors *)

(** [validate()] over the callbacks of its try block, whatever [validate]
    of a component is. *)
Lemma validate_unfold fuel c :
  exists validateChild,
    validate fuel c
    = let (changedProps, tried) :=
        validate_pass (validate_property validateChild fuel) (properties c) []
          (with_validating true c) in
      let fired :=
        each (fun name self =>
                let val := getProp self name in
                firePropertyChange fuel name val val self)
             changedProps (with_validating false (this tried)) in
      let seen := (calls tried ++ calls fired)%list in
      match outcome fired, outcome tried with
      | Throw e, _ => MkResult (Throw e) (this fired) seen
      | Return _, Throw e => MkResult (Throw e) (this fired) seen
      | Return _, Return _ => MkResult (isValid (this fired) None) (this fired) seen
      end.
Proof.
  destruct fuel as [|fuel].
  - exists (throw stack_overflow). reflexivity.
  - exists (validate fuel). reflexivity.
Qed.

Lemma lookup_key {A} (k : string) (a : A) (l : list (string * A)) :
  In (k, a) l -> exists a', lookup k l = Some a' /\ In (k, a') l.
Proof.
  induction l as [|[k0 a0] l IH]; intros Hin; [destruct Hin|]. simpl.
  destruct (String.eqb_spec k0 k) as [->|Hne].
  - exists a0. split; [reflexivity | left; reflexivity].
  - destruct Hin as [E|Hin]; [injection E as E _; contradiction|].
    destruct (IH Hin) as [a' [Ha' Hin']]. exists a'. split; [exact Ha' | right; exact Hin'].
Qed.

Lemma isValid_key c k :
  isValid c (Some k) = Return (Errors.isValid (_errors (fields c)) (Some k)).
Proof. rewrite isValid_unfold. cbn [is_null]. rewrite andb_false_r. reflexivity. Qed.

(** Re-assigning a property what it reads changes no reading. *)
Lemma getProp_refreshed c n d m dm :
  n <> "validating" ->
  property c n = Some d -> get d = None ->
  property c m = Some dm -> get dm = None ->
  getProp (set_ivar ("_" ++ n) (getProp c n) c) m = getProp c m.
Proof.
  intros Hnv Hn Hgn Hm Hgm.
  assert (Hslot : "_" ++ n <> "_validating").
  { intros E. apply Hnv. injection E as E. exact E. }
  assert (Hm' : property (set_ivar ("_" ++ n) (getProp c n) c) m = Some dm)
    by (rewrite property_set_ivar; exact Hm).
  rewrite (getProp_default _ m dm Hm' Hgm), (getProp_default c m dm Hm Hgm).
  rewrite ivar_set_ivar by exact Hslot. destruct (String.eqb_spec ("_" ++ n) ("_" ++ m)) as [E|_];
    [|reflexivity].
  apply underscore_inj in E. subst m. rewrite Hn in Hm. injection Hm as <-.
  rewrite (getProp_default c n d Hn Hgn).
  destruct (isUndefined (ivar c ("_" ++ n))) eqn:Ei.
  - destruct (isUndefined (default d)); reflexivity.
  - rewrite Ei. reflexivity.
Qed.

(** The flag is read by no declared property but one named [validating]. *)
Lemma getProp_with_validating b c name d :
  name <> "validating" -> property c name = Some d ->
  getProp (with_validating b c) name = getProp c name.
Proof.
  intros Hnv Hp. unfold getProp.
  change (property (with_validating b c) name) with (property c name). rewrite Hp.
  destruct (get d); [reflexivity|]. unfold ivar.
  destruct (String.eqb_spec ("_" ++ name) "_validating") as [E|_]; [|reflexivity].
  contradiction Hnv. injection E as E. exact E.
Qed.

Lemma fire_validating fuel name nv ov c :
  _validating c = true ->
  firePropertyChange fuel name nv ov c = MkResult (Return tt) c [].
Proof. intros H. destruct fuel; simpl; rewrite H; reflexivity. Qed.

(** Inside the pass, the callback for a property with generated accessors
    that is no component stores what the property reads and reports no
    change. *)
Lemma validate_property_default validateChild fuel name c d :
  name <> "validating" ->
  _validating c = true ->
  property c name = Some d -> get d = None -> component d = None ->
  validate_property validateChild fuel name c
  = MkResult (Return false) (set_ivar ("_" ++ name) (getProp c name) c) [].
Proof.
  intros Hnv Hv Hp Hg Hc. unfold validate_property. rewrite Hp, Hc.
  assert (Hslot : "_" ++ name <> "_validating").
  { intros E. apply Hnv. injection E as E. exact E. }
  assert (Hw : writable d = true) by (unfold writable; rewrite Hg; reflexivity).
  rewrite Hw.
  assert (Hset : setProp fuel name (getProp c name) c
                 = MkResult (Return tt) (set_ivar ("_" ++ name) (getProp c name) c) []).
  { unfold setProp. rewrite Hp, Hg. cbv zeta. unfold fireIfChanged.
    destruct (negb (strict_eq (ivar c ("_" ++ name)) (getProp c name)));
      [|reflexivity].
    assert (Hv' : _validating (set_ivar ("_" ++ name) (getProp c name) c) = true)
      by (rewrite set_ivar_private by exact Hslot; exact Hv).
    apply fire_validating. exact Hv'. }
  unfold bind, call. cbn [outcome this calls]. rewrite !isValid_key.
  cbn [outcome this calls]. rewrite Hset. cbn [outcome this calls ret app].
  assert (He : _errors (fields (set_ivar ("_" ++ name) (getProp c name) c))
               = _errors (fields c))
    by (rewrite set_ivar_private by exact Hslot; reflexivity).
  rewrite He, Bool.eqb_reflx. reflexivity.
Qed.

Lemma validate_pass_default validateChild fuel :
  forall (ps : list (string * Property)) c0 changed,
    _validating c0 = true ->
    (forall n d, In (n, d) ps ->
       n <> "validating" /\
       exists d', property c0 n = Some d' /\ get d' = None /\ component d' = None) ->
    let r := validate_pass (validate_property validateChild fuel) ps changed c0 in
    fst r = changed /\ outcome (snd r) = Return tt /\ calls (snd r) = [] /\
    shell (this (snd r)) = shell c0 /\
    _errors (fields (this (snd r))) = _errors (fields c0) /\
    forall m dm, property c0 m = Some dm -> get dm = None ->
                 getProp (this (snd r)) m = getProp c0 m.
Proof.
  induction ps as [|[n d] ps IH]; intros c0 changed Hv Hdecl.
  - cbn. repeat split; reflexivity.
  - destruct (Hdecl n d (or_introl eq_refl)) as [Hnv [d' [Hp [Hg Hc]]]].
    cbn [validate_pass].
    rewrite (validate_property_default validateChild fuel n c0 d' Hnv Hv Hp Hg Hc).
    cbn [outcome this calls].
    assert (Hslot : "_" ++ n <> "_validating").
    { intros E. apply Hnv. injection E as E. exact E. }
    pose proof (shell_set_ivar ("_" ++ n) (getProp c0 n) c0 Hslot) as Hshell.
    set (c1 := set_ivar ("_" ++ n) (getProp c0 n) c0) in *.
    assert (Hdecl1 : forall n0 d0, In (n0, d0) ps ->
              n0 <> "validating" /\
              exists d1, property c1 n0 = Some d1 /\ get d1 = None /\ component d1 = None).
    { intros n0 d0 Hin. unfold property. rewrite (shell_properties _ _ Hshell).
      exact (Hdecl n0 d0 (or_intror Hin)). }
    assert (Hv1 : _validating c1 = true)
      by (rewrite (shell_validating _ _ Hshell); exact Hv).
    assert (He1 : _errors (fields c1) = _errors (fields c0))
      by (unfold c1; rewrite set_ivar_private by exact Hslot; reflexivity).
    specialize (IH c1 changed Hv1 Hdecl1). cbv zeta in IH.
    destruct (validate_pass (validate_property validateChild fuel) ps changed c1)
      as [cp r]. cbn [fst snd] in *.
    destruct IH as [H1 [H2 [H3 [H4 [H5 H6]]]]]. cbn [outcome this calls app].
    repeat split; try assumption.
    + rewrite H4. exact Hshell.
    + rewrite H5. exact He1.
    + intros m dm Hm Hgm.
      assert (Hm1 : property c1 m = Some dm)
        by (unfold property; rewrite (shell_properties _ _ Hshell); exact Hm).
      rewrite (H6 m dm Hm1 Hgm).
      apply (getProp_refreshed c0 n d' m dm Hnv Hp Hg Hm Hgm).
Qed.

(** X7: on a data context whose properties all have the generated accessors
    and private variables that are private, and none of which is a
    component, [validate()] returns what the error collector says about the
    whole context, calls no listener, leaves the collector as it is and
    every declared property reading what it read. *)
Theorem validate_without_custom_accessors :
  forall fuel c,
    default_accessors c ->
    no_components c ->
    private_slots c = true ->
    outcome (validate fuel c) = Return (Errors.isValid (_errors (fields c)) None) /\
    calls (validate fuel c) = [] /\
    _errors (fields (this (validate fuel c))) = _errors (fields c) /\
    forall name d,
      In (name, d) (properties c) ->
      getProp (this (validate fuel c)) name = getProp c name.
Proof.
  intros fuel c Hacc Hnc Hprivate.
  destruct (validate_unfold fuel c) as [vc ->].
  assert (Hdecl : forall n d, In (n, d) (properties c) ->
            n <> "validating" /\
            exists d', property (with_validating true c) n = Some d' /\
                       get d' = None /\ component d' = None).
  { intros n d Hin. split; [exact (proj1 (private_names c n d Hprivate Hin))|].
    destruct (lookup_key n d _ Hin) as [d' [Hl Hin']].
    exists d'. split; [exact Hl|]. split; [exact (Hacc n d' Hin') | exact (Hnc n d' Hin')]. }
  pose proof (validate_pass_default vc fuel (properties c) (with_validating true c) []
                eq_refl Hdecl) as P.
  cbv zeta in P.
  destruct (validate_pass (validate_property vc fuel) (properties c) []
              (with_validating true c)) as [cp tried].
  cbn [fst snd] in P. destruct P as [-> [Ho [Hcalls [Hs [He Hg]]]]].
  cbn [each ret outcome this calls]. rewrite Ho, Hcalls. cbn [outcome this calls app].
  set (c' := with_validating false (this tried)).
  assert (Hprops : properties c' = properties c)
    by exact (shell_properties (with_validating true c) (this tried) Hs).
  assert (Herr : _errors (fields c') = _errors (fields c)) by exact He.
  repeat split.
  - rewrite isValid_unfold, Herr, Hprops. cbn [is_null]. rewrite andb_true_r.
    destruct (Errors.isValid (_errors (fields c)) None); [|reflexivity].
    apply every_true. intros [n d] Hin. cbn [fst snd].
    rewrite (Hnc n d Hin). reflexivity.
  - exact Herr.
  - intros name d Hin. destruct (lookup_key name d _ Hin) as [d' [Hl Hin']].
    pose proof (proj1 (private_names c name d Hprivate Hin)) as Hnv.
    assert (Hl' : property (this tried) name = Some d').
    { unfold property. rewrite (shell_properties _ _ Hs). exact Hl. }
    unfold c'. rewrite (getProp_with_validating false _ name d' Hnv Hl').
    rewrite (Hg name d' Hl (Hacc name d' Hin')).
    exact (getProp_with_validating true c name d' Hnv Hl).
Qed.

(** [Samples.point] validates without a sound. *)
Lemma validate_without_custom_accessors_witness :
  outcome (validate 1 Samples.point) = Return true /\
  calls (validate 1 Samples.point) = [] /\
  getProp (this (validate 1 Samples.point)) "B" = VNum 7.
Proof.
  assert (Hacc : default_accessors Samples.point).
  { intros n d [E|[E|[]]]; injection E as _ <-; reflexivity. }
  assert (Hnc : no_components Samples.point).
  { intros n d [E|[E|[]]]; injection E as _ <-; reflexivity. }
  destruct (validate_without_custom_accessors 1 Samples.point Hacc Hnc eq_refl)
    as [Ho [Hc [_ Hg]]].
  split; [exact Ho|]. split; [exact Hc|].
  exact (Hg "B" (plainProperty (VNum 2) None) (or_intror (or_introl eq_refl))).
Defined.

(** ** The registry *)

Lemma lookup_snoc {A} (k : string) (l : list (string * A)) (kv : string * A) :
  lookup k (l ++ [kv])
  = match lookup k l with
    | Some a => Some a
    | None => if String.eqb (fst kv) k then Some (snd kv) else None
    end.
Proof.
  induction l as [|[k0 a0] l IH]; simpl.
  - destruct kv as [k1 a1]. reflexivity.
  - destruct (String.eqb k0 k); [reflexivity | exact IH].
Qed.

Lemma lookup_defaults (source result : Registry.Table) (name : string) :
  lookup name (Registry.defaults result source)
  = match lookup name result with
    | Some d => Some d
    | None => lookup name source
    end.
Proof.
  unfold Registry.defaults. revert result.
  induction source as [|[k d] source IH]; intros result; simpl.
  - destruct (lookup name result); reflexivity.
  - rewrite IH. destruct (lookup k result) as [d0|] eqn:Ek.
    + destruct (lookup name result) eqn:En; [reflexivity|].
      destruct (String.eqb_spec k name) as [->|_]; [|reflexivity].
      rewrite Ek in En. discriminate.
    + rewrite lookup_snoc. cbn [fst snd].
      destruct (lookup name result); [reflexivity|].
      destruct (String.eqb k name); reflexivity.
Qed.

Lemma lookup_none_keys {A} (k : string) (l : list (string * A)) :
  lookup k l = None -> ~ In k (map fst l).
Proof.
  induction l as [|[k0 a0] l IH]; simpl; [tauto|].
  destruct (String.eqb_spec k0 k) as [->|Hne]; [discriminate|].
  intros H [E|Hin]; [contradiction | exact (IH H Hin)].
Qed.

Lemma defaults_distinct (source result : Registry.Table) :
  NoDup (map fst result) -> NoDup (map fst (Registry.defaults result source)).
Proof.
  unfold Registry.defaults. revert result.
  induction source as [|[k d] source IH]; intros result Hnd; simpl; [exact Hnd|].
  apply IH. destruct (lookup k result) eqn:Ek; [exact Hnd|].
  rewrite map_app. simpl. apply NoDup_app; [exact Hnd | repeat constructor; simpl; tauto |].
  intros x Hx [<-|[]]. exact (lookup_none_keys _ _ Ek Hx).
Qed.

(** X8: the two walks of the prototype chain agree. When no table declares
    a name that [Object.prototype] defines, then for every other name the
    descriptor that [property(name)] returns is the one that [properties()]
    lists under the name (the most derived declaration, none when no
    prototype declares the name); [properties()] lists every name once; and
    for a name that [Object.prototype] defines, [property(name)] returns that
    member, not a descriptor, as soon as the chain has a table. *)
Theorem property_agrees_with_properties :
  forall (object_member : string -> bool) (chain : Registry.Chain),
    (forall table key d,
        In (Some table) chain -> In (key, d) table -> object_member key = false) ->
    (forall name,
        object_member name = false ->
        Registry.property object_member chain name
        = option_map Registry.Descriptor (lookup name (Registry.properties chain))) /\
    NoDup (map fst (Registry.properties chain)) /\
    (forall name table,
        object_member name = true ->
        In (Some table) chain ->
        Registry.property object_member chain name
        = Some (Registry.ObjectMember name)).
Proof.
  intros om chain Hkeys. unfold Registry.properties.
  assert (G : forall acc,
             (forall name,
                 om name = false ->
                 option_map Registry.Descriptor
                   (lookup name
                      (fold_left (fun result level =>
                                    match level with
                                    | Some table => Registry.defaults result table
                                    | None => result
                                    end) chain acc))
                 = match lookup name acc with
                   | Some d => Some (Registry.Descriptor d)
                   | None => Registry.property om chain name
                   end) /\
             (NoDup (map fst acc) ->
              NoDup (map fst
                (fold_left (fun result level =>
                              match level with
                              | Some table => Registry.defaults result table
                              | None => result
                              end) chain acc)))).
  { clear Hkeys. induction chain as [|[table|] chain IH]; intros acc.
    - split; [|tauto]. intros name _. simpl. destruct (lookup name acc); reflexivity.
    - destruct (IH (Registry.defaults acc table)) as [IH1 IH2]. split.
      + intros name Hname. cbn [fold_left Registry.property].
        rewrite (IH1 name Hname), lookup_defaults, Hname.
        destruct (lookup name acc); [reflexivity|].
        destruct (lookup name table); reflexivity.
      + intros Hnd. cbn [fold_left]. apply IH2, defaults_distinct, Hnd.
    - exact (IH acc). }
  destruct (G []) as [G1 G2]. split; [|split].
  - intros name Hname. rewrite (G1 name Hname). reflexivity.
  - apply G2. constructor.
  - intros name table Hname Hin. clear G G1 G2. revert Hkeys Hin.
    induction chain as [|[t|] chain IH]; intros Hkeys Hin.
    + destruct Hin.
    + cbn [Registry.property]. destruct (lookup name t) as [d|] eqn:E.
      * apply lookup_In in E.
        rewrite (Hkeys t name d (or_introl eq_refl) E) in Hname. discriminate.
      * rewrite Hname. reflexivity.
    + cbn [Registry.property]. destruct Hin as [E|Hin]; [discriminate|].
      apply IH; [|exact Hin]. intros t k d Ht. apply Hkeys. right. exact Ht.
Qed.

(** [Samples.chain]: [B] is declared twice, the subclass wins; [toString]
    is found on [Object.prototype]. *)
Lemma property_agrees_with_properties_witness :
  Registry.property Samples.object_member Samples.chain "B"
  = Some (Registry.Descriptor (plainProperty (VNum 3) None)) /\
  map fst (Registry.properties Samples.chain) = ["B"; "A"] /\
  Registry.property Samples.object_member Samples.chain "toString"
  = Some (Registry.ObjectMember "toString").
Proof.
  assert (Hkeys : forall table key d,
             In (Some table) Samples.chain -> In (key, d) table ->
             Samples.object_member key = false).
  { intros table key d [E|[E|[E|[]]]] Hin; try discriminate;
      injection E as <-; simpl in Hin;
      repeat (destruct Hin as [Hin|Hin]; [injection Hin as <- _; reflexivity|]);
      destruct Hin. }
  destruct (property_agrees_with_properties Samples.object_member Samples.chain Hkeys)
    as [Hagree [_ Hmember]].
  split; [exact (Hagree "B" eq_refl)|]. split; [reflexivity|].
  exact (Hmember "toString" _ eq_refl (or_introl eq_refl)).
Defined.

(** ** Replacing the view model of a controller *)

Lemma detached_is_unattached k :
  Controller.modelListener (Controller._detachViewModel k) = None /\
  Controller.warnings (Controller._detachViewModel k) = Controller.warnings k.
Proof.
  unfold Controller._detachViewModel.
  destruct (Controller.modelListener k) eqn:E; [split; reflexivity|].
  split; [exact E | reflexivity].
Qed.

(** X9: when the controller receives another view model it detaches before
    it attaches, so the attach is never taken for a second one: whether or
    not a listener was attached before, a call that returns leaves no new
    warning, the fresh listener as [modelListener], and that listener
    subscribed exactly once to every property of the new view model. *)
Theorem replaced_view_model_is_attached_once :
  forall k created closure k2,
    distinct_names created ->
    (forall name, subscriptions created name closure = 0) ->
    Controller.componentWillReceiveProps true created closure k = (Return tt, k2) ->
    Controller.warnings k2 = Controller.warnings k /\
    Controller.modelListener k2 = Some closure /\
    properties (Controller.viewModel k2) = properties created /\
    forall name,
      In name (map fst (properties created)) ->
      subscriptions (Controller.viewModel k2) name closure = 1.
Proof.
  intros k created closure k2 Hnd Hfresh Hrun.
  unfold Controller.componentWillReceiveProps in Hrun.
  destruct (detached_is_unattached k) as [Hnone Hwarn].
  unfold Controller._attachViewModel in Hrun.
  cbn [Controller.modelListener Controller.viewModel Controller.warnings] in Hrun.
  rewrite Hnone, Hwarn in Hrun.
  pose proof (keeps_clearErrors None created) as Hshell.
  set (cleared := clearErrors created None) in *.
  unfold shell in Hshell. injection Hshell as _ Hls Hps.
  destruct (outcome cleared); [|discriminate].
  assert (Hnd' : NoDup (map fst (properties (this cleared))))
    by (rewrite Hps; exact Hnd).
  destruct (attach_result closure (this cleared) Hnd') as [Ho [Hp Hl]].
  rewrite Ho in Hrun. injection Hrun as <-.
  cbn [Controller.modelListener Controller.viewModel Controller.warnings].
  split; [reflexivity|]. split; [reflexivity|]. split; [rewrite Hp; exact Hps|].
  intros name Hin. unfold subscriptions. rewrite Hl, Hps.
  destruct (in_dec string_dec name (map fst (properties created))); [|contradiction].
  specialize (Hfresh name). unfold subscriptions in Hfresh.
  rewrite Hls, (added_fresh _ closure Hfresh), count_occ_snoc, Hfresh. reflexivity.
Qed.

(** [Samples.attached_controller] (listener 9 on the counter) receives
    [Samples.point]; the attach creates listener 10. *)
Lemma replaced_view_model_is_attached_once_witness :
  let k2 := snd (Controller.componentWillReceiveProps true Samples.point 10
                   Samples.attached_controller) in
  Controller.modelListener Samples.attached_controller = Some 9 /\
  Controller.warnings k2 = [] /\
  Controller.modelListener k2 = Some 10 /\
  subscriptions (Controller.viewModel k2) "A" 10 = 1.
Proof.
  intros k2.
  assert (Hnd : distinct_names Samples.point).
  { unfold distinct_names. simpl. repeat constructor; simpl; intuition discriminate. }
  assert (Hfresh : forall name, subscriptions Samples.point name 10 = 0).
  { intros name. unfold subscriptions, EventEmitter.listeners, Samples.point.
    cbn [_listeners lookup]. destruct (String.eqb "A" name); reflexivity. }
  destruct (replaced_view_model_is_attached_once Samples.attached_controller
              Samples.point 10 k2 Hnd Hfresh eq_refl) as [Hw [Hm [_ Hs]]].
  split; [reflexivity|]. split; [exact Hw|]. split; [exact Hm|].
  exact (Hs "A" (or_introl eq_refl)).
Defined.

(** ** The life cycle of a command *)

Section CommandLifeCycle.
Variable World : Type.
Variables (cmd : Command.t World) (args : list JsValue) (w w1 : World) (can : JsValue).
Hypothesis allowed : Command.canExecute cmd args w = (Return can, w1).
Hypothesis truthy_can : truthy can = true.

Local Abbreviation run := (Command.execute cmd args w).

Lemma allowed_not_running : Command._isRunning cmd = false.
Proof.
  destruct (Command._isRunning cmd) eqn:E; [|reflexivity].
  unfold Command.canExecute, Command.isRunning in allowed. rewrite E in allowed.
  injection allowed as <- _. discriminate.
Qed.

Lemma execute_allowed :
  run
  = let (result, w2) := Command.action cmd (Command.context cmd) args w1 in
    let started :=
      [Command.Emitted "canExecute" []; Command.Emitted "execute" [VStr "started"];
       Command.ActionInvoked (Command.context cmd) args] in
    match result with
    | Return result =>
        let promise :=
          if truthy result && Command.has_always result then Command.Adopted result
          else Command.Resolved result in
        Command.MkRun (Return promise)
          (Command.Mk (Command._canExecute cmd) (Command._execute cmd)
             (Command._context cmd) true (Some promise))
          w2 (started ++ [Command.TimeoutSet])%list
    | Throw e =>
        if Command.has_members e then
          Command.MkRun (Return (Command.Rejected (Some e)))
            (Command.Mk (Command._canExecute cmd) (Command._execute cmd)
               (Command._context cmd) true (Some (Command.Rejected (Some e))))
            w2
            (started ++
             [Command.Warned "Command action failed with exception" e;
              Command.TimeoutSet])%list
        else
          Command.MkRun (Throw (cannot_read "message"))
            (Command.Mk (Command._canExecute cmd) (Command._execute cmd)
               (Command._context cmd) true (Command._promise cmd))
            w2 started
    end.
Proof. unfold Command.execute. rewrite allowed, truthy_can. reflexivity. Qed.

Lemma run_is_running : Command._isRunning (Command.command run) = true.
Proof.
  rewrite execute_allowed.
  destruct (Command.action cmd (Command.context cmd) args w1) as [[v|e] w2];
    [|destruct (Command.has_members e)]; reflexivity.
Qed.

(** X10: once [canExecute] has allowed it, [execute] invokes the action
    exactly once and leaves the command running, whatever the action does.
    When the action returns, or throws a value whose [message] can be read,
    [execute] returns a promise, which the command holds, and sets one timer
    as the last thing done: the exception of the action does not reach the
    caller, it becomes the reason of a rejected promise and goes to
    [console.warn]. When the action throws [undefined] or [null], reading
    its [message] fails: [execute] throws that TypeError, stores no promise
    and sets no timer. *)
Theorem execute_contains_action_failure :
  Command._isRunning (Command.command run) = true /\
  List.length
    (filter (fun ef => match ef with Command.ActionInvoked _ _ => true | _ => false end)
            (Command.effects run)) = 1 /\
  (forall v, fst (Command.action cmd (Command.context cmd) args w1) = Return v ->
     exists promise,
       Command.outcome run = Return promise /\
       Command._promise (Command.command run) = Some promise /\
       last (Command.effects run) (Command.Emitted "" []) = Command.TimeoutSet) /\
  (forall e, fst (Command.action cmd (Command.context cmd) args w1) = Throw e ->
     Command.has_members e = true ->
     Command.outcome run = Return (Command.Rejected (Some e)) /\
     Command._promise (Command.command run) = Some (Command.Rejected (Some e)) /\
     In (Command.Warned "Command action failed with exception" e)
        (Command.effects run) /\
     last (Command.effects run) (Command.Emitted "" []) = Command.TimeoutSet) /\
  (forall e, fst (Command.action cmd (Command.context cmd) args w1) = Throw e ->
     Command.has_members e = false ->
     Command.outcome run = Throw (cannot_read "message") /\
     Command._promise (Command.command run) = Command._promise cmd /\
     ~ In Command.TimeoutSet (Command.effects run)).
Proof.
  rewrite execute_allowed.
  destruct (Command.action cmd (Command.context cmd) args w1) as [[v|e] w2]; cbv zeta.
  - split; [reflexivity|]. split; [reflexivity|]. split; [|split].
    + intros v' _. eexists. repeat split.
    + intros e H. discriminate H.
    + intros e H. discriminate H.
  - cbn [fst].
    destruct (Command.has_members e) eqn:Hm;
      (split; [reflexivity|]; split; [reflexivity|]; split; [|split]).
    + intros v H. discriminate H.
    + intros e' H _. injection H as <-. repeat split.
      cbn. right. right. right. left. reflexivity.
    + intros e' H H'. injection H as <-. rewrite Hm in H'. discriminate H'.
    + intros v H. discriminate H.
    + intros e' H H'. injection H as <-. rewrite Hm in H'. discriminate H'.
    + intros e' H _. injection H as <-. repeat split.
      cbn. intros [F|[F|[F|[]]]]; discriminate F.
Qed.

(** X11: between [execute] and the end of the run the command refuses to
    run again: for any arguments [canExecute] is false, [execute] throws
    and [tryExecute] returns a rejected promise, the condition and the
    action are not called and nothing changes. *)
Theorem running_command_refuses :
  forall args' w',
    Command.canExecute (Command.command run) args' w' = (Return (VBool false), w') /\
    Command.execute (Command.command run) args' w'
    = Command.MkRun (Throw (Error "Cannot execute this command now"))
        (Command.command run) w' [] /\
    Command.tryExecute (Command.command run) args' w'
    = Command.MkRun (Return (Command.Rejected None)) (Command.command run) w' [].
Proof.
  intros args' w'.
  pose proof run_is_running as R.
  set (running := Command.command run) in *.
  assert (C : Command.canExecute running args' w' = (Return (VBool false), w')).
  { unfold Command.canExecute, Command.isRunning. rewrite R. reflexivity. }
  split; [exact C|].
  unfold Command.execute, Command.tryExecute. rewrite C. split; reflexivity.
Qed.

(** X12: the run ends where it began. For a command that was idle, the
    callback of [_finishExecute] gives back the command as it was before
    [execute], emitting the canExecute and the finished events; the timer's
    [_finishExecute] runs that callback at once when the promise is settled
    (always so when the command made the promise itself), and changes
    nothing yet when the action's promise is still pending. *)
Theorem finish_restores_idle_command :
  Command._promise cmd = None ->
  forall settled w',
    Command.finished (Command.command run) w'
    = Command.MkRun (Return tt) cmd w'
        [Command.Emitted "canExecute" []; Command.Emitted "execute" [VStr "finished"]] /\
    forall promise,
      Command.outcome run = Return promise ->
      Command._finishExecute settled (Command.command run) w'
      = if Command.is_settled settled promise
        then Command.finished (Command.command run) w'
        else Command.MkRun (Return tt) (Command.command run) w' [].
Proof.
  intros Hidle settled w'. pose proof allowed_not_running as Hrun.
  rewrite execute_allowed.
  destruct cmd as [c0 e0 x0 r0 p0]. cbn in Hidle, Hrun. subst r0 p0.
  destruct (Command.action _ _ args w1) as [[v|e] w2]; cbv zeta; cbn.
  - split; [reflexivity|]. intros promise H. injection H as <-. reflexivity.
  - destruct (Command.has_members e); cbn; (split; [reflexivity|]);
      intros promise H; [injection H as <-; reflexivity | discriminate H].
Qed.
End CommandLifeCycle.

(** [Samples.failing]: the action throws an Error, [execute] returns a
    rejected promise; [Samples.failing_null]: the action throws [null],
    [execute] throws. *)
Lemma execute_contains_action_failure_witness :
  Command.outcome (Command.execute Samples.failing [] 0)
  = Return (Command.Rejected (Some (Error "boom"))) /\
  Command.outcome (Command.execute Samples.failing_null [] 0)
  = Throw (cannot_read "message") /\
  Command._isRunning (Command.command (Command.execute Samples.failing_null [] 0))
  = true.
Proof.
  destruct (execute_contains_action_failure nat Samples.failing [] 0 0 (VBool true)
              eq_refl eq_refl) as [_ [_ [_ [He _]]]].
  destruct (execute_contains_action_failure nat Samples.failing_null [] 0 0
              (VBool true) eq_refl eq_refl) as [Hr [_ [_ [_ Hn]]]].
  split; [exact (proj1 (He (Error "boom") eq_refl eq_refl))|].
  split; [exact (proj1 (Hn (Thrown VNull) eq_refl eq_refl)) | exact Hr].
Defined.

(** [Samples.allowed] after one [execute]: a second one is refused and the
    action is not run again (the world still counts one run). *)
Lemma running_command_refuses_witness :
  let run := Command.execute Samples.allowed [] 0 in
  Command.world run = 1 /\
  Command.outcome (Command.execute (Command.command run) [] (Command.world run))
  = Throw (Error "Cannot execute this command now") /\
  Command.world (Command.tryExecute (Command.command run) [] (Command.world run)) = 1.
Proof.
  cbv zeta.
  destruct (running_command_refuses nat Samples.allowed [] 0 0 (VBool true)
              eq_refl eq_refl []
              (Command.world (Command.execute Samples.allowed [] 0))) as [_ [He Ht]].
  split; [reflexivity|]. split.
  - rewrite He. reflexivity.
  - rewrite Ht. reflexivity.
Defined.

(** [Samples.allowed]: executed, then finished by the timer. *)
Lemma finish_restores_idle_command_witness :
  let run := Command.execute Samples.allowed [] 0 in
  Command.outcome run = Return (Command.Resolved (VNum 1)) /\
  Command.command
    (Command._finishExecute Samples.pending (Command.command run) (Command.world run))
  = Samples.allowed.
Proof.
  cbv zeta.
  destruct (finish_restores_idle_command nat Samples.allowed [] 0 0 (VBool true)
              eq_refl eq_refl eq_refl Samples.pending
              (Command.world (Command.execute Samples.allowed [] 0))) as [Hf Ht].
  split; [reflexivity|].
  rewrite (Ht (Command.Resolved (VNum 1)) eq_refl). cbn [Command.is_settled].
  rewrite Hf. reflexivity.
Defined.

(** ** The once modifier *)

Lemma once_canExecute {World} resolved (cmd : Command.t World) args executed w :
  Command.canExecute (Command.once resolved cmd) args (executed, w)
  = if executed then (Return (VBool false), (executed, w))
    else let (r, w') := Command.canExecute cmd args w in (r, (executed, w')).
Proof.
  unfold Command.canExecute, Command.isRunning, Command.once.
  cbn [Command._isRunning Command._canExecute Command._context].
  destruct (Command._isRunning cmd); [destruct executed; reflexivity|].
  destruct executed; [reflexivity|].
  destruct (Command._canExecute cmd) as [condition|]; reflexivity.
Qed.

(** X13: a command made with [once]. While its mark is set, [canExecute] is
    false for any arguments; with the mark cleared ([resetOnce]) it is what
    the command without the modifier answers. A run that [canExecute]
    allowed sets the mark when the action returns something that is no
    promise, sets it for a returned promise only if that is resolved already,
    and leaves it cleared when the action throws; [execute] then returns the
    rejected promise, or throws itself when the action threw [undefined] or
    [null]. After the successful run, finished by the timer, the command
    stays refused. *)
Theorem once_marks_successful_run :
  forall (World : Type) (resolved : JsValue -> bool) (cmd : Command.t World)
         (args : list JsValue) (w w1 : World) (can : JsValue),
    Command.canExecute cmd args w = (Return can, w1) ->
    truthy can = true ->
    let guarded := Command.once resolved cmd in
    let run := Command.execute guarded args (false, w) in
    (forall (any : Command.t World) args' w',
        Command.canExecute (Command.once resolved any) args' (true, w')
        = (Return (VBool false), (true, w')) /\
        Command.canExecute (Command.once resolved any) args'
          (Command.resetOnce (true, w'))
        = (let (r, w'') := Command.canExecute any args' w' in (r, (false, w'')))) /\
    (forall v w2,
        Command.action cmd (Command.context cmd) args w1 = (Return v, w2) ->
        truthy v && Command.has_always v = false ->
        Command.outcome run = Return (Command.Resolved v) /\
        Command.world run = (true, w2) /\
        forall args',
          Command.canExecute
            (Command.command (Command.finished (Command.command run) (Command.world run)))
            args' (Command.world run)
          = (Return (VBool false), Command.world run)) /\
    (forall v w2,
        Command.action cmd (Command.context cmd) args w1 = (Return v, w2) ->
        truthy v && Command.has_always v = true ->
        Command.outcome run = Return (Command.Adopted v) /\
        Command.world run = (resolved v, w2)) /\
    (forall e w2,
        Command.action cmd (Command.context cmd) args w1 = (Throw e, w2) ->
        Command.outcome run
        = (if Command.has_members e then Return (Command.Rejected (Some e))
           else Throw (cannot_read "message")) /\
        Command.world run = (false, w2)).
Proof.
  intros World resolved cmd args w w1 can Hcan Htruthy guarded run.
  assert (Hguard : Command.canExecute guarded args (false, w) = (Return can, (false, w1))).
  { unfold guarded. rewrite once_canExecute, Hcan. reflexivity. }
  split; [|split; [|split]].
  - intros any args' w'. split.
    + rewrite once_canExecute. reflexivity.
    + unfold Command.resetOnce. cbn [snd]. rewrite once_canExecute. reflexivity.
  - intros v w2 Hact Hsync. unfold run, Command.execute. rewrite Hguard, Htruthy.
    unfold guarded, Command.once, Command.action, Command.context in *.
    cbn [Command._execute Command._context Command._canExecute Command._isRunning].
    rewrite Hact, Hsync. cbn. rewrite Hsync. cbn.
    split; [reflexivity|]. split; [reflexivity|]. intros args'. reflexivity.
  - intros v w2 Hact Hpromise. unfold run, Command.execute. rewrite Hguard, Htruthy.
    unfold guarded, Command.once, Command.action, Command.context in *.
    cbn [Command._execute Command._context Command._canExecute Command._isRunning].
    rewrite Hact, Hpromise.
    assert (T : truthy v && Command.has_always v = true) by exact Hpromise.
    destruct (resolved v); cbn; rewrite T; split; reflexivity.
  - intros e w2 Hact. unfold run, Command.execute. rewrite Hguard, Htruthy.
    unfold guarded, Command.once, Command.action, Command.context in *.
    cbn [Command._execute Command._context Command._canExecute Command._isRunning].
    rewrite Hact. cbn. destruct (Command.has_members e); split; reflexivity.
Qed.

(** [Samples.allowed] made [once]: after its run it is refused, for good;
    [Samples.failing] made [once] is not marked by its failed run. *)
Lemma once_marks_successful_run_witness :
  let run := Command.execute (Command.once Samples.pending Samples.allowed) [] (false, 0) in
  Command.world run = (true, 1) /\
  Command.canExecute
    (Command.command (Command.finished (Command.command run) (Command.world run)))
    [] (Command.world run)
  = (Return (VBool false), (true, 1)) /\
  Command.world
    (Command.execute (Command.once Samples.pending Samples.failing) [] (false, 0))
  = (false, 1).
Proof.
  cbv zeta.
  destruct (once_marks_successful_run nat Samples.pending Samples.allowed [] 0 0
              (VBool true) eq_refl eq_refl) as [_ [Hsync _]].
  destruct (Hsync (VNum 1) 1 eq_refl eq_refl) as [_ [Hw Hc]].
  destruct (once_marks_successful_run nat Samples.pending Samples.failing [] 0 0
              (VBool true) eq_refl eq_refl) as [_ [_ [_ Hthrow]]].
  split; [exact Hw|]. split; [exact (Hc [])|].
  exact (proj2 (Hthrow (Error "boom") 1 eq_refl)).
Defined.

(** ** The validating flag across the tree *)

Lemma idle_unfold c : idle c = negb (_validating c) && components_idle c.
Proof. destruct c. reflexivity. Qed.

Lemma forallb_remove_key {A} (f : string * A -> bool) k (l : list (string * A)) :
  forallb f l = true -> forallb f (remove_key k l) = true.
Proof.
  induction l as [|[k0 a0] l IH]; simpl; [reflexivity|].
  intros H. apply andb_prop in H. destruct H as [H0 H1].
  destruct (String.eqb k0 k); simpl; [|rewrite H0]; apply IH, H1.
Qed.

Lemma forallb_assign {A} (f : string * A -> bool) k a (l : list (string * A)) :
  (forall k', f (k', a) = true) ->
  forallb f l = true -> forallb f (assign k a l) = true.
Proof.
  intros Ha. induction l as [|[k0 a0] l IH]; simpl.
  - intros _. rewrite Ha. reflexivity.
  - intros H. apply andb_prop in H. destruct H as [H0 H1].
    destruct (String.eqb k0 k); simpl.
    + rewrite Ha. exact H1.
    + rewrite H0. apply IH, H1.
Qed.

Lemma components_idle_in c k child :
  components_idle c = true -> In (k, child) (components c) -> idle child = true.
Proof.
  unfold components_idle. rewrite forallb_forall. intros H Hin. exact (H _ Hin).
Qed.

Lemma keeps_idle_bind {A B} (m : M A) (f : A -> M B) :
  keeps_idle m -> (forall a, keeps_idle (f a)) -> keeps_idle (bind m f).
Proof.
  intros Hm Hf c Hc. unfold bind. destruct (outcome (m c)) eqn:E; simpl.
  - apply Hf, Hm, Hc.
  - apply Hm, Hc.
Qed.

Lemma keeps_idle_each {A} (f : A -> M unit) (l : list A) :
  (forall x, keeps_idle (f x)) -> keeps_idle (each f l).
Proof.
  intros Hf. induction l as [|x l IH]; simpl.
  - intros c Hc. exact Hc.
  - apply keeps_idle_bind; [apply Hf | intros _; exact IH].
Qed.

Lemma keeps_idle_fire fuel name nv ov : keeps_idle (firePropertyChange fuel name nv ov).
Proof. intros c Hc. rewrite (firePropertyChange_this fuel name nv ov c). exact Hc. Qed.

Lemma keeps_idle_setProp fuel name v : keeps_idle (setProp fuel name v).
Proof.
  intros c Hc. unfold setProp.
  assert (Hset : forall k, components_idle (set_ivar k v c) = true).
  { intros k. unfold components_idle, set_ivar.
    destruct (String.eqb k "_validating"); [exact Hc|].
    cbn [components with_components]. apply forallb_remove_key. exact Hc. }
  assert (Hfire : forall c1, components_idle c1 = true ->
            forall ov, components_idle
                         (this (fireIfChanged (firePropertyChange fuel) name v ov c1))
                       = true).
  { intros c1 H1 ov. unfold fireIfChanged.
    destruct (negb (strict_eq ov v)); [apply keeps_idle_fire|]; exact H1. }
  destruct (property c name) as [d|]; [|apply Hset].
  destruct (get d) as [g|], (set d) as [s|].
  - destruct (s v (fields c)) as [f' [u|e]]; [apply Hfire|]; exact Hc.
  - exact Hc.
  - apply Hfire, Hset.
  - apply Hfire, Hset.
Qed.

Lemma keeps_idle_call {A} (f : DataContext -> Outcome A) : keeps_idle (call f).
Proof. intros c Hc. exact Hc. Qed.

Lemma keeps_idle_ret {A} (a : A) : keeps_idle (ret a).
Proof. intros c Hc. exact Hc. Qed.

Lemma keeps_idle_on_component {A} k (r : Result A) :
  idle (this r) = true -> keeps_idle (on_component k r).
Proof.
  intros Hr c Hc. unfold on_component, put_component, components_idle.
  cbn [this components with_components].
  apply forallb_assign; [intros k'; exact Hr | exact Hc].
Qed.

Lemma keeps_idle_validate_property validateChild fuel name :
  (forall child, idle child = true -> idle (this (validateChild child)) = true) ->
  keeps_idle (validate_property validateChild fuel name).
Proof.
  intros Hvc c Hc. unfold validate_property.
  destruct (property c name) as [d|]; [|exact Hc].
  destruct (match component d with
            | Some _ => receiver c name d
            | None => ROther
            end) as [|child|] eqn:R.
  - exact Hc.
  - assert (Hchild : idle child = true).
    { destruct (component d); [|discriminate].
      apply receiver_context in R. exact (components_idle_in c _ child Hc R). }
    revert c Hc R.
    assert (K : keeps_idle
                  (validComponent <- call (fun _ => isValid child None) ;;
                   validProp <- call (fun self => isValid self (Some name)) ;;
                   validated <- on_component ("_" ++ name) (validateChild child) ;;
                   validProp' <- call (fun self => isValid self (Some name)) ;;
                   ret (negb (Bool.eqb validComponent validated)
                        || negb (Bool.eqb validProp validProp')))).
    { apply keeps_idle_bind; [apply keeps_idle_call|intros].
      apply keeps_idle_bind; [apply keeps_idle_call|intros].
      apply keeps_idle_bind; [apply keeps_idle_on_component, Hvc, Hchild|intros].
      apply keeps_idle_bind; [apply keeps_idle_call|intros]. apply keeps_idle_ret. }
    intros c Hc _. exact (K c Hc).
  - destruct (writable d); [|exact Hc].
    revert c Hc R. intros c Hc _.
    assert (K : forall v, keeps_idle
                  (valid <- call (fun self => isValid self (Some name)) ;;
                   setProp fuel name v ;;
                   valid' <- call (fun self => isValid self (Some name)) ;;
                   ret (negb (Bool.eqb valid valid')))).
    { intros v. apply keeps_idle_bind; [apply keeps_idle_call|intros].
      apply keeps_idle_bind; [apply keeps_idle_setProp|intros].
      apply keeps_idle_bind; [apply keeps_idle_call|intros]. apply keeps_idle_ret. }
    exact (K (getProp c name) c Hc).
Qed.

Lemma keeps_idle_validate_pass step props :
  (forall name, keeps_idle (step name)) ->
  forall changedProps c,
    components_idle c = true ->
    components_idle (this (snd (validate_pass step props changedProps c))) = true.
Proof.
  intros Hstep. induction props as [|[name d] props IH]; intros cp c Hc; simpl.
  - exact Hc.
  - destruct (outcome (step name c)) as [changed|e] eqn:E.
    + specialize (IH (if changed then cp ++ [name] else cp)%list (this (step name c))
                     (Hstep name c Hc)).
      destruct (validate_pass step props _ (this (step name c))) as [cp' r'].
      exact IH.
    + simpl. apply Hstep, Hc.
Qed.

Lemma validate_as_validate_with fuel c :
  validate fuel c
  = validate_with (match fuel with
                   | 0 => throw stack_overflow
                   | S fuel' => validate fuel'
                   end) fuel c.
Proof. destruct fuel; reflexivity. Qed.

Lemma validate_with_idle validateChild fuel c :
  (forall child, idle child = true -> idle (this (validateChild child)) = true) ->
  components_idle c = true ->
  idle (this (validate_with validateChild fuel c)) = true.
Proof.
  intros Hvc Hc. unfold validate_with.
  pose proof (keeps_idle_validate_pass (validate_property validateChild fuel)
                (properties c)
                (fun name => keeps_idle_validate_property validateChild fuel name Hvc)
                [] (with_validating true c) Hc) as K.
  destruct (validate_pass (validate_property validateChild fuel) (properties c) []
              (with_validating true c)) as [cp tried].
  cbn [snd] in K.
  assert (F : this (each (fun name self =>
                            let val := getProp self name in
                            firePropertyChange fuel name val val self)
                         cp (with_validating false (this tried)))
              = with_validating false (this tried)).
  { apply (keeps_each (fun x => x)). intros name c1.
    apply (firePropertyChange_this fuel). }
  assert (G : idle (with_validating false (this tried)) = true).
  { rewrite idle_unfold. exact K. }
  cbv zeta.
  destruct (outcome (each _ cp _)), (outcome tried); cbn [this];
    refine (eq_trans (f_equal idle _) G); exact F.
Qed.

Lemma validate_idle fuel :
  forall c, components_idle c = true -> idle (this (validate fuel c)) = true.
Proof.
  induction fuel as [|fuel IH]; intros c Hc; rewrite validate_as_validate_with;
    apply validate_with_idle; try exact Hc.
  - intros child Hchild. exact Hchild.
  - intros child Hchild. apply IH. rewrite idle_unfold in Hchild.
    apply andb_prop in Hchild. apply Hchild.
Qed.

Lemma everyM_ext {A} (f g : A -> M bool) (l : list A) c :
  (forall x c', f x c' = g x c') -> everyM f l c = everyM g l c.
Proof.
  intros H. revert c. induction l as [|x l IH]; intros c; [reflexivity|].
  cbn [everyM]. unfold bind. rewrite H. destruct (outcome (g x c)) as [[|]|];
    [rewrite IH|..]; reflexivity.
Qed.

Lemma keeps_idle_everyM {A} (f : A -> M bool) (l : list A) :
  (forall x, keeps_idle (f x)) -> keeps_idle (everyM f l).
Proof.
  intros Hf. induction l as [|x l IH]; simpl.
  - apply keeps_idle_ret.
  - apply keeps_idle_bind; [apply Hf|]. intros [|]; [exact IH | apply keeps_idle_ret].
Qed.

(** [clearErrors()] in terms of the components themselves. *)
Lemma clearErrors_unfold c key :
  clearErrors c key
  = let cleared := with_errors (Errors.clear (_errors (fields c)) key) c in
    if is_null key then
      (everyM (fun np self =>
                 match component (snd np) with
                 | Some _ =>
                     match receiver_in (components c) self (fst np) (snd np) with
                     | RNullish => throw (cannot_read "clearErrors") self
                     | RContext child =>
                         (on_component ("_" ++ fst np) (clearErrors child None) ;;
                          ret (truthy VUndefined)) self
                     | ROther => ret true self
                     end
                 | None => ret true self
                 end)
              (properties cleared) ;;
       ret tt) cleared
    else ret tt cleared.
Proof.
  destruct c as [id f v cs ls ps].
  cbn [clearErrors fields properties components]. cbv zeta.
  destruct (is_null key); [|reflexivity].
  unfold bind. rewrite (everyM_ext _
    (fun np self =>
       match component (snd np) with
       | Some _ =>
           match receiver_in cs self (fst np) (snd np) with
           | RNullish => throw (cannot_read "clearErrors") self
           | RContext child =>
               (on_component ("_" ++ fst np) (clearErrors child None) ;;
                ret (truthy VUndefined)) self
           | ROther => ret true self
           end
       | None => ret true self
       end)); [reflexivity|].
  intros [name d] self. cbn [fst snd]. destruct (component d); [|reflexivity].
  rewrite (receiver_in_map (fun child => clearErrors child None)).
  destruct (receiver_in cs self name d); reflexivity.
Qed.

Lemma receiver_in_context {A} (kids : list (string * A)) c name d a :
  receiver_in kids c name d = RContext a -> In ("_" ++ name, a) kids.
Proof.
  unfold receiver_in, classify. destruct (get d).
  - destruct (isNullish (getProp c name)); discriminate.
  - destruct (lookup ("_" ++ name) kids) eqn:E.
    + intros H. injection H as ->. apply lookup_In, E.
    + destruct (isNullish (getProp c name)); discriminate.
Qed.

Lemma clearErrors_idle key :
  forall c, idle c = true -> idle (this (clearErrors c key)) = true.
Proof.
  intros c. revert key. induction c as [c IH] using DataContext_tree_ind.
  intros key Hc. rewrite idle_unfold in Hc. apply andb_prop in Hc.
  destruct Hc as [Hflag Hkids].
  rewrite idle_unfold.
  assert (Hv : _validating (this (clearErrors c key)) = _validating c)
    by apply shell_validating, keeps_clearErrors.
  rewrite Hv, Hflag. cbn [andb].
  rewrite clearErrors_unfold. cbv zeta.
  set (cleared := with_errors (Errors.clear (_errors (fields c)) key) c).
  assert (Hcl : components_idle cleared = true) by exact Hkids.
  destruct (is_null key); [|exact Hcl].
  refine (keeps_idle_bind _ _ _ _ cleared Hcl); [|intros; apply keeps_idle_ret].
  apply keeps_idle_everyM. intros [name d] self Hself. cbn [fst snd].
  destruct (component d); [|exact Hself].
  destruct (receiver_in (components c) self name d) as [|child|] eqn:R;
    [exact Hself| |exact Hself].
  apply receiver_in_context in R.
  refine (keeps_idle_bind _ _ _ _ self Hself); [|intros; apply keeps_idle_ret].
  apply keeps_idle_on_component. apply (IH _ _ R).
  exact (components_idle_in c _ child Hkids R).
Qed.

Lemma idle_from_shell c c' :
  shell c' = shell c -> components_idle c' = true -> idle c = true -> idle c' = true.
Proof.
  intros Hs Hk Hc. rewrite idle_unfold in *. rewrite (shell_validating _ _ Hs), Hk.
  apply andb_prop in Hc. destruct Hc as [-> _]. reflexivity.
Qed.

Lemma property_in c name d : property c name = Some d -> In (name, d) (properties c).
Proof.
  unfold property. induction (properties c) as [|[k a] l IH]; [discriminate|].
  simpl. destruct (String.eqb_spec k name) as [->|_]; intros H.
  - injection H as ->. left. reflexivity.
  - right. apply IH, H.
Qed.

(** X14: the flag is released in the whole tree. When no data context of a
    tree is inside a validating pass, none is after [validate()] (however it
    ends) or [clearErrors], nor, when the private variables are private,
    after an assignment to a declared property, [reset] or [putAll]. *)
Theorem tree_stays_idle :
  forall c,
    idle c = true ->
    (forall fuel, idle (this (validate fuel c)) = true) /\
    (forall key, idle (this (clearErrors c key)) = true) /\
    (private_slots c = true ->
     (forall fuel name v,
         property c name <> None -> idle (this (setProp fuel name v c)) = true) /\
     (forall fuel newData, idle (this (reset fuel newData c)) = true) /\
     (forall fuel newData, idle (this (putAll fuel newData c)) = true)).
Proof.
  intros c Hc. pose proof Hc as Hc'. rewrite idle_unfold in Hc'.
  apply andb_prop in Hc'. destruct Hc' as [_ Hkids].
  split; [|split; [|intros Hprivate; split; [|split]]].
  - intros fuel. apply validate_idle, Hkids.
  - intros key. apply clearErrors_idle, Hc.
  - intros fuel name v Hp.
    destruct (property c name) as [d|] eqn:E; [|contradiction Hp; reflexivity].
    destruct (private_names c name d Hprivate (property_in c name d E)) as [H1 [H2 _]].
    apply (idle_from_shell c); [apply keeps_setProp; assumption| |exact Hc].
    apply keeps_idle_setProp, Hkids.
  - intros fuel newData.
    apply (idle_from_shell c); [apply keeps_reset, Hprivate| |exact Hc].
    unfold reset. apply keeps_idle_each; [|exact Hkids]. intros [name d].
    destruct (writable d); [apply keeps_idle_setProp | apply keeps_idle_ret].
  - intros fuel newData.
    apply (idle_from_shell c); [apply keeps_putAll, Hprivate| |exact Hc].
    unfold putAll. destruct newData as [nd|]; [|exact Hkids].
    apply keeps_idle_each; [|exact Hkids]. intros [name d].
    destruct (writable d), (lookup name nd); try apply keeps_idle_ret.
    apply keeps_idle_setProp.
Qed.

(** [Samples.holder], whose component throws in its setter. *)
Lemma tree_stays_idle_witness :
  idle Samples.holder = true /\
  outcome (validate 2 Samples.holder) = Throw (Error "setter failed") /\
  idle (this (validate 2 Samples.holder)) = true /\
  idle (this (reset 1 None Samples.holder)) = true.
Proof.
  split; [reflexivity|]. split; [reflexivity|]. split.
  - exact (proj1 (tree_stays_idle Samples.holder eq_refl) 2).
  - exact (proj1 (proj2 (proj2 (proj2 (tree_stays_idle Samples.holder eq_refl))
                           eq_refl)) 1 None).
Defined.

(** ** The condition is asked twice *)

(** X15: [tryExecute] asks [canExecute] and, on a truthy answer, calls
    [execute], which asks again. When asking leaves the world as it is, the
    second answer is the first and [tryExecute] never throws the guard's
    error: it returns a promise, unless the action throws [undefined] or
    [null] and makes [execute] throw; when the condition answers truthy and then, in
    the world its first evaluation left, falsy, [tryExecute] throws "Cannot
    execute this command now" like [execute], without running the action. *)
Theorem tryExecute_asks_twice :
  forall (World : Type) (cmd : Command.t World) (args : list JsValue)
         (w w1 : World) (can : JsValue),
    Command.canExecute cmd args w = (Return can, w1) ->
    (w1 = w ->
     (exists promise,
         Command.outcome (Command.tryExecute cmd args w) = Return promise) \/
     (truthy can = true /\
      exists e,
        fst (Command.action cmd (Command.context cmd) args w) = Throw e /\
        Command.has_members e = false /\
        Command.outcome (Command.tryExecute cmd args w)
        = Throw (cannot_read "message"))) /\
    (truthy can = true ->
     forall can' w2,
       Command.canExecute cmd args w1 = (Return can', w2) ->
       truthy can' = false ->
       Command.tryExecute cmd args w
       = Command.MkRun (Throw (Error "Cannot execute this command now")) cmd w2 []).
Proof.
  intros World cmd args w w1 can Hcan. split.
  - intros ->. unfold Command.tryExecute. rewrite Hcan.
    destruct (truthy can) eqn:T; [|left; eexists; reflexivity].
    rewrite (execute_allowed World cmd args w w can Hcan T).
    destruct (Command.action cmd (Command.context cmd) args w) as [[v|e] w2];
      [left; eexists; reflexivity|].
    destruct (Command.has_members e) eqn:Hm; [left; eexists; reflexivity|].
    right. split; [reflexivity|]. exists e. rewrite Hm. repeat split.
  - intros T can' w2 Hcan' T'. unfold Command.tryExecute. rewrite Hcan, T.
    unfold Command.execute. rewrite Hcan', T'. reflexivity.
Qed.

(** [Samples.allowed] has a condition that only reads; [Samples.flip_flop]
    answers true once. *)
Lemma tryExecute_asks_twice_witness :
  (exists promise,
      Command.outcome (Command.tryExecute Samples.allowed [] 0) = Return promise) /\
  Command.tryExecute Samples.flip_flop [] 0
  = Command.MkRun (Throw (Error "Cannot execute this command now")) Samples.flip_flop 2 [].
Proof.
  split.
  - destruct (proj1 (tryExecute_asks_twice nat Samples.allowed [] 0 0 (VBool true)
                       eq_refl) eq_refl) as [H|[_ [e [H _]]]];
      [exact H | discriminate H].
  - exact (proj2 (tryExecute_asks_twice nat Samples.flip_flop [] 0 1 (VBool true) eq_refl)
             eq_refl (VBool false) 2 eq_refl eq_refl).
Defined.
